(** * Agente 9 - Recover: backup integrity validation and prioritised restoration

    A shallow embedding of [src/cr_agente_9.py]: the validation agent
    ([ValidationAgent]), the orchestration agent ([OrchestrationAgent]) and
    the supervisor ([CyberResilienceSystem]), followed by the properties of
    the specification that concern them.

    Modelling choices.
    - The Python objects and the part of the outside world they touch
      (backup directory, hash database file, production directory, clock,
      standard output) are the fields of one record, [State]; every method
      is a function in a state-and-exception monad [M].
    - Python numbers are modelled as Python has them.  The numbers of the
      registry are [int]s of any size or finite [float]s; the demands are
      [int]s.  A [float] is an IEEE 754 binary64 number, with the
      operations of the Standard Library's [SpecFloat] at precision 53:
      products and quotients are rounded to nearest, ties to even; the
      conversion of an [int] that is too large raises [OverflowError]; a
      comparison between an [int] and a [float] compares the exact values.
      The literals [0.1] and [1.5] are the binary64 numbers nearest to
      1/10 and 3/2.
    - The rewriting of [hash_db.json] by [verify_backup] is taken to
      succeed: the model has no failing write of the hash database.
    - [hashlib.sha256] is a variable of the development: nothing below
      depends on which digest function is used.
    - Python dictionaries whose order matters ([critical_services], whose
      [items()] are iterated in insertion order, and the directory listing)
      are association lists; the others are [gmap]s. *)

From Stdlib Require Import ZArith QArith Qabs Lia Strings.Byte Sorted.
From Stdlib Require Import Floats.SpecFloat.
From stdpp Require Import gmap strings list fin_maps.

Local Open Scope string_scope.

(** ** Data *)

(** Exceptions that the modelled code can raise, with their text. *)
Inductive Exn : Type :=
  | ZeroDivisionError (msg : string)
  | OverflowError (msg : string)
  | KeyError (key : string)
  | JSONDecodeError
  | OSError (msg : string).

(** [str(e)] as used in [restore_service]. *)
Definition str_exn (e : Exn) : string :=
  match e with
  | ZeroDivisionError msg => msg
  | OverflowError msg => msg
  | KeyError key => key
  | JSONDecodeError => "Expecting value"
  | OSError msg => msg
  end.

(** A number of the registry, as [json.load] returns it: an [int], or a
    finite [float] of sign [negative] and magnitude
    [mantissa * 2 ^ exponent] (mantissa 0 for [0.0] and [-0.0]). *)
Inductive PyNum : Type :=
  | PyInt (z : Z)
  | PyFloat (negative : bool) (mantissa : N) (exponent : Z).

(** One value of the [critical_services] dictionary. *)
Record ServiceData : Type := mkServiceData {
  priority : PyNum;
  demand_threshold : PyNum
}.

(** An entry of the backup directory: a file that can be read, or an entry
    that exists but whose [open]/[read] raises (a sub-directory, a file
    without read permission, a failing disk). *)
Inductive Node : Type :=
  | Readable (content : list byte)
  | Unreadable (err : string).

(** The file [hash_db.json]: absent, a JSON object, or not valid JSON. *)
Inductive HashDb : Type :=
  | DbAbsent
  | DbDict (known_hashes : gmap string string)
  | DbCorrupt.

(** One value of [ValidationAgent.integrity_status]. *)
Record IntegrityEntry : Type := mkIntegrityEntry {
  valid : bool;
  message : string;
  last_checked : string
}.

(** One value of the [results] dictionary of [orchestrate_restorations]. *)
Record RestoreResult : Type := mkRestoreResult {
  success : bool;
  result_message : string
}.

(** The lines written by [print], one constructor per [print] statement. *)
Inductive LogLine : Type :=
  | LogValidationStart
  | LogValidationItem (is_valid : bool) (backup msg : string)
  | LogValidationDone
  | LogRestoreStart (service : string) (partial : bool)
  | LogOrchestrationStart
  | LogPriorityOrder (prioritized : list string)
  | LogOrchestrationDone
  | LogManualRestoration.

Record State : Type := mkState {
  (* BackupConfig *)
  critical_services : list (string * ServiceData);
  (* the directory [backups], in [os.listdir] order *)
  backups : list (string * Node);
  (* the file [hash_db.json] *)
  hash_db : HashDb;
  (* the directory [production]: service -> file name -> content *)
  production : gmap string (gmap string (list byte));
  (* environment: a copy into the target of a service that fails after
     that many bytes with that error text *)
  copy_faults : gmap string (nat * string);
  (* environment: [datetime.now()] as [%Y%m%d] and as [isoformat()] *)
  clock_ymd : string;
  clock_iso : string;
  (* ValidationAgent.integrity_status *)
  integrity_status : gmap string IntegrityEntry;
  (* OrchestrationAgent.current_demands *)
  current_demands : gmap string Z;
  (* standard output *)
  stdout : list LogLine
}.

Definition set_hash_db (db : HashDb) (st : State) : State :=
  mkState (critical_services st) (backups st) db (production st)
          (copy_faults st) (clock_ymd st) (clock_iso st)
          (integrity_status st) (current_demands st) (stdout st).

Definition set_production (p : gmap string (gmap string (list byte)))
    (st : State) : State :=
  mkState (critical_services st) (backups st) (hash_db st) p
          (copy_faults st) (clock_ymd st) (clock_iso st)
          (integrity_status st) (current_demands st) (stdout st).

Definition set_integrity_status (s : gmap string IntegrityEntry)
    (st : State) : State :=
  mkState (critical_services st) (backups st) (hash_db st) (production st)
          (copy_faults st) (clock_ymd st) (clock_iso st)
          s (current_demands st) (stdout st).

Definition set_current_demands (d : gmap string Z) (st : State) : State :=
  mkState (critical_services st) (backups st) (hash_db st) (production st)
          (copy_faults st) (clock_ymd st) (clock_iso st)
          (integrity_status st) d (stdout st).

Definition set_stdout (out : list LogLine) (st : State) : State :=
  mkState (critical_services st) (backups st) (hash_db st) (production st)
          (copy_faults st) (clock_ymd st) (clock_iso st)
          (integrity_status st) (current_demands st) out.

(** ** Python arithmetic *)

Module Py.

(** The binary64 format. *)
Definition prec : Z := 53.
Definition emax : Z := 1024.

(** The literals [0.1] and [1.5]. *)
Definition float_0_1 : spec_float := S754_finite false 7205759403792794 (-56).
Definition float_1_5 : spec_float := S754_finite false 6755399441055744 (-52).

(** The [float] of the registry with the given sign, mantissa and
    exponent. *)
Definition float_of_parts (s : bool) (m : N) (e : Z) : spec_float :=
  match m with
  | N0 => S754_zero s
  | Npos p => S754_finite s p e
  end.

(** [float(z)], the conversion applied to an [int] operand of a [float]
    operation: the nearest [float], or [OverflowError]. *)
Definition float_of_int (z : Z) : Exn + spec_float :=
  match binary_normalize prec emax z 0 false with
  | S754_infinity _ => inl (OverflowError "int too large to convert to float")
  | x => inr x
  end.

Definition as_float (x : PyNum) : Exn + spec_float :=
  match x with
  | PyInt z => float_of_int z
  | PyFloat s m e => inr (float_of_parts s m e)
  end.

(** An [int] as an exact operand of the division below. *)
Definition exact_int (z : Z) : spec_float :=
  match z with
  | Z0 => S754_zero false
  | Zpos p => S754_finite false p 0
  | Zneg p => S754_finite true p 0
  end.

(** [a / b] on two [int]s: the [float] nearest to the exact quotient. *)
Definition int_truediv (a b : Z) : Exn + spec_float :=
  match b with
  | Z0 => inl (ZeroDivisionError "division by zero")
  | _ =>
      match SFdiv prec emax (exact_int a) (exact_int b) with
      | S754_infinity _ =>
          inl (OverflowError "integer division result too large for a float")
      | q => inr q
      end
  end.

(** [x / y] on two [float]s. *)
Definition float_truediv (x y : spec_float) : Exn + spec_float :=
  match y with
  | S754_zero _ => inl (ZeroDivisionError "float division by zero")
  | _ => inr (SFdiv prec emax x y)
  end.

(** [a / y] for an [int] and a [float]: the [int] is converted first. *)
Definition int_div_float (a : Z) (y : spec_float) : Exn + spec_float :=
  match float_of_int a with
  | inl err => inl err
  | inr x => float_truediv x y
  end.

(** [a / b] for an [int] and a number of the registry. *)
Definition truediv (a : Z) (b : PyNum) : Exn + spec_float :=
  match b with
  | PyInt z => int_truediv a z
  | PyFloat s m e => int_div_float a (float_of_parts s m e)
  end.

(** [x * y] for a number of the registry and a [float]. *)
Definition mul (x : PyNum) (y : spec_float) : Exn + spec_float :=
  match as_float x with
  | inl err => inl err
  | inr f => inr (SFmul prec emax f y)
  end.

(** [max(a, b)]: [b] when [b > a], otherwise [a]. *)
Definition max (a b : spec_float) : spec_float :=
  if SFltb a b then b else a.

(** [z < x] for an [int] and a [float]: the exact values are compared. *)
Definition int_lt_float (z : Z) (x : spec_float) : bool :=
  match x with
  | S754_nan => false
  | S754_infinity s => negb s
  | S754_zero _ => (z <? 0)%Z
  | S754_finite s m e =>
      let v := if s then Zneg m else Zpos m in
      match e with
      | Zneg p => (z * 2 ^ Zpos p <? v)%Z
      | _ => (z <? v * 2 ^ e)%Z
      end
  end.

(** [z < x] for an [int] and a number of the registry. *)
Definition lt (z : Z) (x : PyNum) : bool :=
  match x with
  | PyInt t => (z <? t)%Z
  | PyFloat s m e => int_lt_float z (float_of_parts s m e)
  end.

End Py.

(** ** The state-and-exception monad *)

Definition M (A : Type) : Type := State → State * (Exn + A).

#[export] Instance M_ret : MRet M := λ A x st, (st, inr x).

#[export] Instance M_bind : MBind M := λ A B f m st,
  match m st with
  | (st', inl e) => (st', inl e)
  | (st', inr x) => f x st'
  end.

Definition raise {A : Type} (e : Exn) : M A := λ st, (st, inl e).

(** The value of an expression, or the exception that it raises. *)
Definition lift {A : Type} (r : Exn + A) : M A := λ st, (st, r).

Definition gets {A : Type} (f : State → A) : M A := λ st, (st, inr (f st)).

Definition modify (f : State → State) : M unit := λ st, (f st, inr tt).

(** [try: body except Exception as e: handler e] *)
Definition try_except {A : Type} (body : M A) (handler : Exn → M A) : M A :=
  λ st,
  match body st with
  | (st', inl e) => handler e st'
  | (st', inr x) => (st', inr x)
  end.

Definition print (l : LogLine) : M unit :=
  modify (λ st, set_stdout (stdout st ++ [l]) st).

(** [for x in xs: body x] *)
Fixpoint for_each {A : Type} (xs : list A) (body : A → M unit) : M unit :=
  match xs with
  | [] => mret tt
  | x :: xs' => body x ;; for_each xs' body
  end.

(** Lookup in an association list (first binding of the key). *)
Fixpoint assoc {A : Type} (k : string) (l : list (string * A)) : option A :=
  match l with
  | [] => None
  | (k', v) :: l' => if String.eqb k k' then Some v else assoc k l'
  end.

Section Agents.

(** [hashlib.sha256(...).hexdigest()] of a byte string. *)
Variable sha256 : list byte → string.

(** ** ValidationAgent *)

(** [calculate_hash]: opens the file and digests it chunk by chunk; the
    digest of the chunks is the digest of the whole content. *)
Definition calculate_hash (file_path : string) : M string :=
  nodes ← gets backups;
  match assoc file_path nodes with
  | Some (Readable content) => mret (sha256 content)
  | Some (Unreadable err) => raise (OSError err)
  | None => raise (OSError "No such file or directory")
  end.

(** [os.path.exists] on a path of the backup directory. *)
Definition backup_exists (backup_file : string) : M bool :=
  nodes ← gets backups;
  mret (bool_decide (is_Some (assoc backup_file nodes))).

(** [json.load] of the hash database, with the [except FileNotFoundError]
    of the caller. *)
Definition load_known_hashes : M (gmap string string) :=
  db ← gets hash_db;
  match db with
  | DbAbsent => mret ∅
  | DbDict known_hashes => mret known_hashes
  | DbCorrupt => raise JSONDecodeError
  end.

Definition verify_backup (backup_file : string) : M (bool * string) :=
  found ← backup_exists backup_file;
  if negb found then mret (false, "Backup no encontrado")
  else
    current_hash ← calculate_hash backup_file;
    known_hashes ← load_known_hashes;
    match known_hashes !! backup_file with
    | Some known =>
        if String.eqb known current_hash
        then mret (true, "Integridad verificada")
        else mret (false, "Hash no coincide")
    | None =>
        modify (set_hash_db (DbDict (<[backup_file := current_hash]> known_hashes))) ;;
        mret (true, "Nuevo backup registrado")
    end.

(** The body of the loop of [full_validation_cycle]. *)
Definition validate_one (backup : string) : M unit :=
  '(is_valid, msg) ← verify_backup backup;
  now ← gets clock_iso;
  modify (λ st, set_integrity_status
                  (<[backup := mkIntegrityEntry is_valid msg now]>
                     (integrity_status st)) st) ;;
  print (LogValidationItem is_valid backup msg).

Definition full_validation_cycle : M (gmap string IntegrityEntry) :=
  print LogValidationStart ;;
  listing ← gets (λ st, (backups st).*1);
  for_each listing validate_one ;;
  print LogValidationDone ;;
  gets integrity_status.

(** ** OrchestrationAgent *)

(** The simulated demand sample of [evaluate_demands]. *)
Definition demand_sample : gmap string Z :=
  <["servicio_db" := 150%Z]>
    (<["servicio_api" := 65%Z]>
       (<["servicio_web" := 30%Z]> ∅)).

Definition evaluate_demands : M (gmap string Z) :=
  modify (set_current_demands demand_sample) ;;
  gets current_demands.

(** The body of the loop over [critical_services.items()]. *)
Definition service_priority (demands : gmap string Z)
    (service : string) (data : ServiceData) : M (spec_float * string) :=
  let current_demand := default 0%Z (demands !! service) in
  demand_ratio ← lift (Py.truediv current_demand (demand_threshold data));
  factor ← lift (Py.int_div_float 1 (Py.max Py.float_0_1 demand_ratio));
  prio ← lift (Py.mul (priority data) factor);
  mret (prio, service).

Fixpoint build_priority_list (demands : gmap string Z)
    (items : list (string * ServiceData)) : M (list (spec_float * string)) :=
  match items with
  | [] => mret []
  | (service, data) :: items' =>
      entry ← service_priority demands service data;
      rest ← build_priority_list demands items';
      mret (entry :: rest)
  end.

(** [list.sort(key=...)] is a stable sort, ascending in the key, that
    compares keys with [<]: so is this insertion sort, which puts an
    element after the elements of smaller key only, hence before the
    elements of equal key that followed it in the input.  (The keys are
    never NaN: they are products of a finite number by a factor between 0
    and 10.) *)
Fixpoint insert_by_key (x : spec_float * string)
    (l : list (spec_float * string)) : list (spec_float * string) :=
  match l with
  | [] => [x]
  | y :: l' =>
      if SFltb (fst y) (fst x) then y :: insert_by_key x l'
      else x :: y :: l'
  end.

Definition sort_by_key (l : list (spec_float * string))
    : list (spec_float * string) :=
  foldr insert_by_key [] l.

Definition prioritize_services : M (list string) :=
  demands ← evaluate_demands;
  items ← gets critical_services;
  priority_list ← build_priority_list demands items;
  mret ((sort_by_key priority_list).*2).

(** [os.path.exists(target)] and [os.makedirs(target)]. *)
Definition target_exists (service : string) : M bool :=
  gets (λ st, bool_decide (is_Some (production st !! service))).

Definition makedirs (service : string) : M unit :=
  modify (λ st, set_production (<[service := ∅]> (production st)) st).

(** [shutil.copy(source, os.path.join(target, name))]: the destination is
    opened for writing and receives the bytes of the source directly.  When
    the environment makes the copy fail after [k] bytes, the destination is
    left with those [k] bytes and the error is raised. *)
Definition shutil_copy (backup_file service name : string) : M unit :=
  nodes ← gets backups;
  match assoc backup_file nodes with
  | Some (Readable content) =>
      prod ← gets production;
      match prod !! service with
      | None => raise (OSError "No such file or directory")
      | Some dir =>
          fault ← gets (λ st, copy_faults st !! service);
          match fault with
          | Some (k, err) =>
              modify (set_production
                        (<[service := <[name := take k content]> dir]> prod)) ;;
              raise (OSError err)
          | None =>
              modify (set_production
                        (<[service := <[name := content]> dir]> prod))
          end
      end
  | Some (Unreadable err) => raise (OSError err)
  | None => raise (OSError "No such file or directory")
  end.

(** The [try: ... except Exception as e: return False, str(e)] block of
    [restore_service] ([time.sleep(1)] has no effect on the state). *)
Definition restore_copy (service backup_file : string) (partial : bool)
    : M (bool * string) :=
  try_except
    (present ← target_exists service;
     (if negb present then makedirs service else mret tt) ;;
     (if partial
      then shutil_copy backup_file service "partial_restore"
      else shutil_copy backup_file service "full_restore") ;;
     mret (true, "Restauración exitosa"))
    (λ e, mret (false, str_exn e)).

Definition restore_service (service backup_file : string) (partial : bool)
    : M (bool * string) :=
  print (LogRestoreStart service partial) ;;
  '(is_valid, _) ← verify_backup backup_file;
  if negb is_valid then mret (false, "Backup inválido")
  else restore_copy service backup_file partial.

(** The backup file naming convention of [orchestrate_restorations]. *)
Definition backup_file_name (service ymd : string) : string :=
  service +:+ "_backup_" +:+ ymd +:+ ".bak".

(** [current_demand < threshold * 1.5]. *)
Definition restore_mode (current_demand : Z) (threshold : PyNum)
    : Exn + bool :=
  match Py.mul threshold Py.float_1_5 with
  | inl err => inl err
  | inr product => inr (Py.int_lt_float current_demand product)
  end.

(** One iteration of the loop of [orchestrate_restorations]: the new
    [results], and whether the loop stops ([break]). *)
Definition restore_iteration (service : string)
    (results : gmap string RestoreResult)
    : M (gmap string RestoreResult * bool) :=
  ymd ← gets clock_ymd;
  let backup_file := backup_file_name service ymd in
  demands ← gets current_demands;
  let current_demand := default 0%Z (demands !! service) in
  services ← gets critical_services;
  match assoc service services with
  | None => raise (KeyError service)
  | Some data =>
      let threshold := demand_threshold data in
      partial ← lift (restore_mode current_demand threshold);
      '(ok, msg) ← restore_service service backup_file partial;
      let results' := <[service := mkRestoreResult ok msg]> results in
      mret (results', ok && Py.lt current_demand threshold)
  end.

Fixpoint restore_loop (prioritized : list string)
    (results : gmap string RestoreResult) : M (gmap string RestoreResult) :=
  match prioritized with
  | [] => mret results
  | service :: rest =>
      '(results', stop) ← restore_iteration service results;
      if stop : bool then mret results' else restore_loop rest results'
  end.

Definition orchestrate_restorations : M (gmap string RestoreResult) :=
  print LogOrchestrationStart ;;
  prioritized ← prioritize_services;
  print (LogPriorityOrder prioritized) ;;
  results ← restore_loop prioritized ∅;
  print LogOrchestrationDone ;;
  mret results.

(** ** CyberResilienceSystem *)

Definition detect_incident : M bool := mret true.

(** One turn of [monitoring_loop] (without the [time.sleep]). *)
Definition monitoring_tick : M unit :=
  full_validation_cycle ;;
  incident ← detect_incident;
  if incident : bool then orchestrate_restorations ;; mret tt else mret tt.

Definition manual_restoration : M (gmap string RestoreResult) :=
  print LogManualRestoration ;;
  orchestrate_restorations.

(** ** Threads

    [start_monitoring] runs [monitoring_loop] in a thread of its own, and
    [manual_restoration] runs in the thread of its caller: the two run on
    the same objects.  A thread is at the call of its method (the body of
    [manual_restoration], or a turn of [monitoring_loop]), at the entry of
    [orchestrate_restorations], or in the loop of that method; the steps
    below are the stretches of the methods between two such points, as the
    source has them.  (The interpreter can switch threads at more points
    than these.) *)

Inductive Trigger : Type :=
  | ManualTrigger
  | MonitoringTick.

Inductive RunPoint : Type :=
  | AtCall
  | AtEntry
  | InLoop (pending : list string) (results : gmap string RestoreResult).

(** What the method of a trigger returns: the results of the run for
    [manual_restoration], nothing for a turn of [monitoring_loop]. *)
Definition returned (t : Trigger) (results : gmap string RestoreResult)
    : option (gmap string RestoreResult) :=
  match t with
  | ManualTrigger => Some results
  | MonitoringTick => None
  end.

(** The method of a trigger, run without interruption. *)
Definition trigger_method (t : Trigger)
    : M (option (gmap string RestoreResult)) :=
  match t with
  | ManualTrigger => results ← manual_restoration; mret (Some results)
  | MonitoringTick => monitoring_tick ;; mret None
  end.

(** One stretch of the method of trigger [t]: from the call to the entry
    of [orchestrate_restorations], from that entry to the loop, one
    iteration of the loop, or from the end of the loop to the return. *)
Definition thread_step (t : Trigger) (point : RunPoint)
    : M (RunPoint + option (gmap string RestoreResult)) :=
  match point with
  | AtCall =>
      match t with
      | ManualTrigger =>
          print LogManualRestoration ;;
          mret (inl AtEntry)
      | MonitoringTick =>
          full_validation_cycle ;;
          incident ← detect_incident;
          if incident : bool then mret (inl AtEntry) else mret (inr None)
      end
  | AtEntry =>
      print LogOrchestrationStart ;;
      prioritized ← prioritize_services;
      print (LogPriorityOrder prioritized) ;;
      mret (inl (InLoop prioritized ∅))
  | InLoop (service :: rest) results =>
      '(results', stop) ← restore_iteration service results;
      mret (inl (InLoop (if stop : bool then [] else rest) results'))
  | InLoop [] results =>
      print LogOrchestrationDone ;;
      mret (inr (returned t results))
  end.

Record System : Type := mkSystem {
  shared : State;
  active : list (Trigger * RunPoint);
  finished : list (Trigger * (Exn + option (gmap string RestoreResult)))
}.

(** [Arrives t]: a thread calls the method of trigger [t].
    [Advances i]: the [i]-th thread that is in a method runs its next
    stretch. *)
Inductive Event : Type :=
  | Arrives (t : Trigger)
  | Advances (i : nat).

(** The effect of an event; [None] when there is no thread [i].  A call
    starts executing the method whatever the other threads are doing:
    whether the run goes on is decided by the code of the method alone,
    that is by [thread_step]. *)
Definition system_step (sys : System) (ev : Event) : option System :=
  match ev with
  | Arrives t =>
      Some (mkSystem (shared sys) (active sys ++ [(t, AtCall)]) (finished sys))
  | Advances i =>
      match active sys !! i with
      | None => None
      | Some (t, point) =>
          match thread_step t point (shared sys) with
          | (st', inl e) =>
              Some (mkSystem st' (delete i (active sys))
                      (finished sys ++ [(t, inl e)]))
          | (st', inr (inl point')) =>
              Some (mkSystem st' (<[i := (t, point')]> (active sys))
                      (finished sys))
          | (st', inr (inr value)) =>
              Some (mkSystem st' (delete i (active sys))
                      (finished sys ++ [(t, inr value)]))
          end
      end
  end.

Fixpoint run_events (sys : System) (events : list Event) : option System :=
  match events with
  | [] => Some sys
  | ev :: events' =>
      match system_step sys ev with
      | None => None
      | Some sys' => run_events sys' events'
      end
  end.

End Agents.

(** ** BackupConfig *)

(** The built-in registry of [load_critical_services]. *)
Definition default_critical_services : list (string * ServiceData) :=
  [ ("servicio_db", mkServiceData (PyInt 1) (PyInt 100));
    ("servicio_api", mkServiceData (PyInt 2) (PyInt 80));
    ("servicio_web", mkServiceData (PyInt 3) (PyInt 50)) ].

(** [load_critical_services]: the content of [critical_services.json], or
    the built-in registry when the file is absent. *)
Definition load_critical_services
    (file : option (list (string * ServiceData)))
    : list (string * ServiceData) :=
  match file with
  | Some services => services
  | None => default_critical_services
  end.

(** ** Concrete states used in examples *)

(** A stand-in digest for the examples: the content itself, as a string. *)
Definition sample_digest (content : list byte) : string :=
  String.string_of_list_byte content.

Definition bytes_of (s : string) : list byte := String.list_byte_of_string s.

(** A fresh installation on 1 January 2025: default registry, one backup of
    the day per service, no hash database, empty production directory. *)
Definition fresh_state : State :=
  {| critical_services := load_critical_services None;
     backups :=
       [ ("servicio_db_backup_20250101.bak", Readable (bytes_of "db-data"));
         ("servicio_api_backup_20250101.bak", Readable (bytes_of "api-data"));
         ("servicio_web_backup_20250101.bak", Readable (bytes_of "web-data")) ];
     hash_db := DbAbsent;
     production := ∅;
     copy_faults := ∅;
     clock_ymd := "20250101";
     clock_iso := "2025-01-01T00:00:00";
     integrity_status := ∅;
     current_demands := ∅;
     stdout := [] |}.

(** ** Specification-side vocabulary *)

(** The digests recorded in the hash database (none when it is absent). *)
Definition known_hashes_of (db : HashDb) : gmap string string :=
  match db with
  | DbDict known_hashes => known_hashes
  | DbAbsent | DbCorrupt => ∅
  end.

(** The content of a file of the production directory, as seen by a reader. *)
Definition target_file (st : State) (service name : string)
    : option (list byte) :=
  production st !! service ≫= (λ dir, dir !! name).

(** The file that a restoration in the given mode writes. *)
Definition restore_name (partial : bool) : string :=
  if partial then "partial_restore" else "full_restore".

(** The exact value of a number of the registry. *)
Definition num_value (x : PyNum) : Q :=
  match x with
  | PyInt z => inject_Z z
  | PyFloat s m e =>
      ((if s then -1 else 1) * inject_Z (Z.of_N m) * 2 ^ e)%Q
  end.

(** * Properties *)

Ltac unfold_monad :=
  unfold mbind, M_bind, mret, M_ret, gets, modify, raise, lift, print in *.

Section Validation.

Variable sha256 : list byte → string.

Lemma backup_exists_found st f node :
  assoc f (backups st) = Some node →
  backup_exists f st = (st, inr true).
Proof.
  intros Hf. unfold backup_exists. unfold_monad. rewrite Hf.
  by rewrite bool_decide_eq_true_2.
Qed.

Lemma verify_backup_not_found st f :
  assoc f (backups st) = None →
  verify_backup sha256 f st = (st, inr (false, "Backup no encontrado")).
Proof.
  intros Hf. unfold verify_backup, backup_exists. unfold_monad. rewrite Hf.
  rewrite bool_decide_eq_false_2; [done | by intros [? ?]].
Qed.

Lemma verify_backup_unreadable st f err :
  assoc f (backups st) = Some (Unreadable err) →
  verify_backup sha256 f st = (st, inl (OSError err)).
Proof.
  intros Hf. unfold verify_backup.
  unfold mbind at 1, M_bind at 1. rewrite (backup_exists_found _ _ _ Hf).
  simpl. unfold calculate_hash. unfold_monad. by rewrite Hf.
Qed.

Lemma verify_backup_corrupt st f content :
  assoc f (backups st) = Some (Readable content) →
  hash_db st = DbCorrupt →
  verify_backup sha256 f st = (st, inl JSONDecodeError).
Proof.
  intros Hf Hdb. unfold verify_backup.
  unfold mbind at 1, M_bind at 1. rewrite (backup_exists_found _ _ _ Hf).
  simpl. unfold calculate_hash, load_known_hashes. unfold_monad.
  by rewrite Hf, Hdb.
Qed.

Lemma verify_backup_known st f content known d :
  assoc f (backups st) = Some (Readable content) →
  hash_db st = DbDict known →
  known !! f = Some d →
  verify_backup sha256 f st =
    (st, inr (if String.eqb d (sha256 content)
              then (true, "Integridad verificada")
              else (false, "Hash no coincide"))).
Proof.
  intros Hf Hdb Hd. unfold verify_backup.
  unfold mbind at 1, M_bind at 1. rewrite (backup_exists_found _ _ _ Hf).
  simpl. unfold calculate_hash, load_known_hashes. unfold_monad.
  rewrite Hf, Hdb, Hd. by destruct (String.eqb d (sha256 content)).
Qed.

Lemma verify_backup_new st f content :
  assoc f (backups st) = Some (Readable content) →
  hash_db st ≠ DbCorrupt →
  known_hashes_of (hash_db st) !! f = None →
  verify_backup sha256 f st =
    (set_hash_db
       (DbDict (<[f := sha256 content]> (known_hashes_of (hash_db st)))) st,
     inr (true, "Nuevo backup registrado")).
Proof.
  intros Hf Hdb Hd. unfold verify_backup.
  unfold mbind at 1, M_bind at 1. rewrite (backup_exists_found _ _ _ Hf).
  simpl. unfold calculate_hash, load_known_hashes. unfold_monad.
  rewrite Hf. destruct (hash_db st) as [|known|] eqn:E; simpl in *.
  - done.
  - by rewrite Hd.
  - done.
Qed.

End Validation.

Section Ledger.

Variable sha256 : list byte → string.

(** The state after [n] further calls of [verify_backup] on the same file. *)
Definition verify_again (n : nat) (f : string) (st : State) : State :=
  Nat.iter n (λ s, fst (verify_backup sha256 f s)) st.

(** What is printed does not influence a verification. *)
Lemma verify_backup_stdout st f out :
  verify_backup sha256 f (set_stdout out st) =
    (set_stdout out (fst (verify_backup sha256 f st)),
     snd (verify_backup sha256 f st)).
Proof.
  destruct (assoc f (backups st)) as [[content|err]|] eqn:Hf.
  - destruct (hash_db st) as [|known|] eqn:Hdb.
    + rewrite (verify_backup_new sha256 st f content),
        (verify_backup_new sha256 (set_stdout out st) f content);
        simpl; rewrite ?Hdb; done.
    + destruct (known !! f) as [d|] eqn:Hd.
      * by rewrite (verify_backup_known sha256 st f content known d),
          (verify_backup_known sha256 (set_stdout out st) f content known d).
      * rewrite (verify_backup_new sha256 st f content),
          (verify_backup_new sha256 (set_stdout out st) f content);
          simpl; rewrite ?Hdb; done.
    + by rewrite (verify_backup_corrupt sha256 st f content),
        (verify_backup_corrupt sha256 (set_stdout out st) f content).
  - by rewrite (verify_backup_unreadable sha256 st f err),
      (verify_backup_unreadable sha256 (set_stdout out st) f err).
  - by rewrite (verify_backup_not_found sha256 st f),
      (verify_backup_not_found sha256 (set_stdout out st) f).
Qed.

(** C2. For an artifact that has a ledger entry and whose current bytes
    hash to a digest different from the stored one, [verify_backup] returns
    the mismatch outcome [(False, "Hash no coincide")] and changes nothing:
    in particular the digest stored for the artifact is the same before and
    after the call. *)
Theorem verify_mismatch_keeps_ledger st f content known d :
  assoc f (backups st) = Some (Readable content) →
  hash_db st = DbDict known →
  known !! f = Some d →
  d ≠ sha256 content →
  verify_backup sha256 f st = (st, inr (false, "Hash no coincide")) ∧
  known_hashes_of (hash_db (fst (verify_backup sha256 f st))) !! f = Some d.
Proof.
  intros Hf Hdb Hd Hne.
  rewrite (verify_backup_known sha256 st f content known d Hf Hdb Hd).
  apply String.eqb_neq in Hne. rewrite Hne. split; [done|].
  simpl. by rewrite Hdb.
Qed.

(** C7. For an artifact without ledger entry, the first [verify_backup]
    records its digest in the hash database and returns
    [(True, "Nuevo backup registrado")]; every later call on the unchanged
    bytes returns [(True, "Integridad verificada")] and leaves the state as
    the first call left it. *)
Theorem verify_register_then_verified st f content :
  assoc f (backups st) = Some (Readable content) →
  hash_db st ≠ DbCorrupt →
  known_hashes_of (hash_db st) !! f = None →
  let st1 := fst (verify_backup sha256 f st) in
  snd (verify_backup sha256 f st) = inr (true, "Nuevo backup registrado") ∧
  known_hashes_of (hash_db st1) !! f = Some (sha256 content) ∧
  ∀ n, verify_backup sha256 f (verify_again n f st1) =
         (st1, inr (true, "Integridad verificada")).
Proof.
  intros Hf Hdb Hd st1. subst st1.
  rewrite (verify_backup_new sha256 st f content Hf Hdb Hd). simpl.
  split; [done|]. split; [by rewrite lookup_insert_eq|].
  set (st1 := set_hash_db _ st).
  assert (Hstep : verify_backup sha256 f st1 =
                    (st1, inr (true, "Integridad verificada"))).
  { rewrite (verify_backup_known sha256 st1 f content
               (<[f := sha256 content]> (known_hashes_of (hash_db st)))
               (sha256 content)); try done.
    - by rewrite String.eqb_refl.
    - by rewrite lookup_insert_eq. }
  intros n. induction n as [|n IH]; [done|].
  unfold verify_again in *. simpl. by rewrite IH.
Qed.

(** C9. When the hash database file is absent and the artifact exists in
    the backup directory, [verify_backup] takes the ledger as empty,
    creates the hash database with the artifact's current digest as its
    only entry and returns [(True, "Nuevo backup registrado")]: no error is
    reported. *)
Theorem verify_missing_ledger_registers st f content :
  assoc f (backups st) = Some (Readable content) →
  hash_db st = DbAbsent →
  verify_backup sha256 f st =
    (set_hash_db (DbDict {[ f := sha256 content ]}) st,
     inr (true, "Nuevo backup registrado")).
Proof.
  intros Hf Hdb.
  rewrite (verify_backup_new sha256 st f content Hf).
  - rewrite Hdb. simpl. by rewrite insert_empty.
  - by rewrite Hdb.
  - by rewrite Hdb.
Qed.

Lemma set_hash_db_id st : set_hash_db (hash_db st) st = st.
Proof. by destruct st. Qed.

(** A verification writes nothing but the hash database. *)
Lemma verify_backup_frame st f :
  fst (verify_backup sha256 f st) =
    set_hash_db (hash_db (fst (verify_backup sha256 f st))) st.
Proof.
  destruct (assoc f (backups st)) as [[content|err]|] eqn:Hf.
  - destruct (hash_db st) as [|known|] eqn:Hdb.
    + by rewrite (verify_backup_new sha256 st f content); rewrite ?Hdb.
    + destruct (known !! f) as [d|] eqn:Hd.
      * rewrite (verify_backup_known sha256 st f content known d) by done.
        simpl. by rewrite set_hash_db_id.
      * by rewrite (verify_backup_new sha256 st f content); rewrite ?Hdb.
    + rewrite (verify_backup_corrupt sha256 st f content) by done.
      simpl. by rewrite set_hash_db_id.
  - rewrite (verify_backup_unreadable sha256 st f err) by done.
    simpl. by rewrite set_hash_db_id.
  - rewrite (verify_backup_not_found sha256 st f) by done.
    simpl. by rewrite set_hash_db_id.
Qed.

Lemma restore_service_unfold st service f partial :
  restore_service sha256 service f partial st =
    let st0 := set_stdout (stdout st ++ [LogRestoreStart service partial]) st in
    match verify_backup sha256 f st0 with
    | (st1, inl e) => (st1, inl e)
    | (st1, inr (is_valid, _)) =>
        if negb is_valid then (st1, inr (false, "Backup inválido"))
        else restore_copy service f partial st1
    end.
Proof.
  unfold restore_service. unfold mbind at 1 2, M_bind at 1 2.
  unfold print, modify. simpl.
  destruct (verify_backup sha256 f _) as [st1 [e|[[] msg]]]; done.
Qed.

(** C5. When [verify_backup] on the artifact answers "not found" or
    "mismatch", [restore_service] returns the failure
    [(False, "Backup inválido")] and the production directory is exactly
    what it was before the call. *)
Theorem restore_invalid_backup_writes_nothing st service f partial :
  snd (verify_backup sha256 f st) = inr (false, "Backup no encontrado") ∨
  snd (verify_backup sha256 f st) = inr (false, "Hash no coincide") →
  snd (restore_service sha256 service f partial st) =
    inr (false, "Backup inválido") ∧
  production (fst (restore_service sha256 service f partial st)) =
    production st.
Proof.
  intros Hv. rewrite restore_service_unfold. cbv zeta.
  rewrite verify_backup_stdout.
  assert (Hprod : production (fst (verify_backup sha256 f st)) =
                    production st)
    by by rewrite verify_backup_frame.
  destruct (verify_backup sha256 f st) as [st1 r]. simpl in *.
  destruct Hv as [-> | ->]; simpl; by rewrite Hprod.
Qed.

End Ledger.

Section Restoration.

Variable sha256 : list byte → string.

(** The bytes that reach the target file: all of them, or those written
    before the copy failed. *)
Definition written_bytes (fault : option (nat * string))
    (content : list byte) : list byte :=
  match fault with
  | Some (k, _) => take k content
  | None => content
  end.

(** The result of the copy block under the given fault. *)
Definition copy_outcome (fault : option (nat * string)) : bool * string :=
  match fault with
  | Some (_, err) => (false, err)
  | None => (true, "Restauración exitosa")
  end.

Lemma restore_copy_readable st service f partial content :
  assoc f (backups st) = Some (Readable content) →
  restore_copy service f partial st =
    (set_production
       (<[service :=
            <[restore_name partial :=
                written_bytes (copy_faults st !! service) content]>
              (default ∅ (production st !! service))]> (production st)) st,
     inr (copy_outcome (copy_faults st !! service))).
Proof.
  intros Hf. unfold restore_copy, try_except, target_exists, makedirs.
  unfold_monad.
  destruct (production st !! service) as [dir|] eqn:Hdir; simpl.
  - destruct partial; unfold shutil_copy; unfold_monad; simpl;
      rewrite Hf, Hdir; simpl;
      destruct (copy_faults st !! service) as [[k err]|]; done.
  - destruct partial; unfold shutil_copy; unfold_monad; simpl;
      rewrite Hf; simpl; rewrite lookup_insert_eq; simpl;
      destruct (copy_faults st !! service) as [[k err]|]; simpl;
      by rewrite insert_insert_eq.
Qed.

Lemma restore_service_valid st service f partial content m :
  assoc f (backups st) = Some (Readable content) →
  snd (verify_backup sha256 f st) = inr (true, m) →
  restore_service sha256 service f partial st =
    (set_production
       (<[service :=
            <[restore_name partial :=
                written_bytes (copy_faults st !! service) content]>
              (default ∅ (production st !! service))]> (production st))
       (set_stdout (stdout st ++ [LogRestoreStart service partial])
          (fst (verify_backup sha256 f st))),
     inr (copy_outcome (copy_faults st !! service))).
Proof.
  intros Hf Hv. rewrite restore_service_unfold. cbv zeta.
  rewrite verify_backup_stdout, Hv. simpl.
  rewrite (restore_copy_readable _ service f partial content).
  - by rewrite verify_backup_frame.
  - by rewrite verify_backup_frame.
Qed.

(** A successful pre-check means that the artifact was read. *)
Lemma verify_backup_valid_readable st f m :
  snd (verify_backup sha256 f st) = inr (true, m) →
  ∃ content, assoc f (backups st) = Some (Readable content).
Proof.
  destruct (assoc f (backups st)) as [[content|err]|] eqn:Hf; [by eauto|..].
  - by rewrite (verify_backup_unreadable sha256 st f err).
  - by rewrite (verify_backup_not_found sha256 st f).
Qed.

(** The property of the specification: after a restoration whose pre-check
    passed, the target file is what it was or holds the whole artifact. *)
Definition restore_is_all_or_nothing (st : State) (service f : string)
    (partial : bool) : Prop :=
  ∀ content m,
    assoc f (backups st) = Some (Readable content) →
    snd (verify_backup sha256 f st) = inr (true, m) →
    let st' := fst (restore_service sha256 service f partial st) in
    target_file st' service (restore_name partial) =
      target_file st service (restore_name partial) ∨
    target_file st' service (restore_name partial) = Some content.

(** C4, as the code has it. When the pre-check passes, [restore_service]
    copies the artifact straight onto the visible target file
    ([partial_restore] or [full_restore] in the service's production
    directory, created if absent): there is no staging file and no rename,
    no other file of the production directory is written.  When the copy
    completes, the target holds the artifact's bytes and the result is
    [(True, "Restauración exitosa")]; when it fails after [k] bytes, the
    result is [(False, <error text>)] and the visible target holds exactly
    the first [k] bytes of the artifact. *)
Theorem restore_writes_target_in_place st service f partial content m :
  assoc f (backups st) = Some (Readable content) →
  snd (verify_backup sha256 f st) = inr (true, m) →
  let r := restore_service sha256 service f partial st in
  snd r = inr (copy_outcome (copy_faults st !! service)) ∧
  target_file (fst r) service (restore_name partial) =
    Some (written_bytes (copy_faults st !! service) content) ∧
  ∀ service' name',
    (service', name') ≠ (service, restore_name partial) →
    target_file (fst r) service' name' = target_file st service' name'.
Proof.
  intros Hf Hv r. subst r.
  rewrite (restore_service_valid st service f partial content m Hf Hv).
  unfold target_file. simpl. split; [done|]. split.
  - by rewrite lookup_insert_eq; simpl; rewrite lookup_insert_eq.
  - intros service' name' Hne.
    destruct (decide (service' = service)) as [->|Hs].
    + rewrite lookup_insert_eq. simpl.
      rewrite lookup_insert_ne by congruence.
      by destruct (production st !! service).
    + by rewrite lookup_insert_ne.
Qed.

End Restoration.

Section ValidationCycle.

Variable sha256 : list byte → string.

(** The property of the specification: the cycle returns normally, with a
    status for every artifact of the backup directory, a failed one for
    those that cannot be read. *)
Definition cycle_isolates_failures (st : State) : Prop :=
  ∃ status,
    snd (full_validation_cycle sha256 st) = inr status ∧
    ∀ name node, (name, node) ∈ backups st →
      ∃ entry, status !! name = Some entry ∧
               (∀ err, node = Unreadable err → valid entry = false).

Lemma assoc_app_l {A : Type} (k : string) (l1 l2 : list (string * A)) :
  k ∈ l1.*1 → assoc k (l1 ++ l2) = assoc k l1.
Proof.
  induction l1 as [|[k' v] l1 IH]; simpl; intros Hin.
  - by apply elem_of_nil in Hin.
  - destruct (String.eqb_spec k k') as [->|Hne]; [done|].
    apply elem_of_cons in Hin as [?|Hin]; [done|]. by apply IH.
Qed.

Lemma assoc_app_r {A : Type} (k : string) (l1 l2 : list (string * A)) :
  k ∉ l1.*1 → assoc k (l1 ++ l2) = assoc k l2.
Proof.
  induction l1 as [|[k' v] l1 IH]; simpl; intros Hin; [done|].
  apply not_elem_of_cons in Hin as [Hne Hin].
  destruct (String.eqb_spec k k') as [->|_]; [done|]. by apply IH.
Qed.

Lemma assoc_elem_of {A : Type} (k : string) (l : list (string * A)) :
  k ∈ l.*1 → ∃ v, assoc k l = Some v ∧ (k, v) ∈ l.
Proof.
  induction l as [|[k' v] l IH]; simpl; intros Hin.
  - by apply elem_of_nil in Hin.
  - destruct (String.eqb_spec k k') as [->|Hne].
    + exists v. split; [done | apply elem_of_cons; by left].
    + apply elem_of_cons in Hin as [?|Hin]; [done|].
      destruct (IH Hin) as (v' & Hv & Hel). exists v'.
      split; [done | apply elem_of_cons; by right].
Qed.

Lemma assoc_NoDup {A : Type} (k : string) (v : A) (l : list (string * A)) :
  NoDup l.*1 → (k, v) ∈ l → assoc k l = Some v.
Proof.
  induction l as [|[k' v'] l IH]; simpl; intros Hnd Hin.
  - by apply elem_of_nil in Hin.
  - apply NoDup_cons in Hnd as [Hfresh Hnd].
    apply elem_of_cons in Hin as [Heq|Hin].
    + injection Heq as <- <-. by rewrite String.eqb_refl.
    + destruct (String.eqb_spec k k') as [->|_]; [|by apply IH].
      destruct Hfresh. apply list_elem_of_fmap. by exists (k', v).
Qed.

(** What [verify_backup] answers on a readable artifact of digest [digest]
    whose ledger entry is [prior]. *)
Definition expected_outcome (prior : option string) (digest : string)
    : bool * string :=
  match prior with
  | Some known =>
      if String.eqb known digest
      then (true, "Integridad verificada")
      else (false, "Hash no coincide")
  | None => (true, "Nuevo backup registrado")
  end.

(** The hash database after the verification of such an artifact. *)
Definition ledger_after (db : HashDb) (f digest : string) : HashDb :=
  match known_hashes_of db !! f with
  | Some _ => db
  | None => DbDict (<[f := digest]> (known_hashes_of db))
  end.

Lemma verify_backup_spec st f content :
  assoc f (backups st) = Some (Readable content) →
  hash_db st ≠ DbCorrupt →
  verify_backup sha256 f st =
    (set_hash_db (ledger_after (hash_db st) f (sha256 content)) st,
     inr (expected_outcome (known_hashes_of (hash_db st) !! f)
            (sha256 content))).
Proof.
  intros Hf Hdb. unfold ledger_after, expected_outcome.
  destruct (known_hashes_of (hash_db st) !! f) as [d|] eqn:Hd.
  - destruct (hash_db st) as [|known|] eqn:E; simpl in Hd; try done.
    rewrite (verify_backup_known sha256 st f content known d) by done.
    by rewrite <- E, set_hash_db_id.
  - by rewrite (verify_backup_new sha256 st f content).
Qed.

Lemma ledger_after_lookup db f h g :
  known_hashes_of (ledger_after db f h) !! g =
    if decide (g = f) then Some (default h (known_hashes_of db !! f))
    else known_hashes_of db !! g.
Proof.
  unfold ledger_after.
  destruct (known_hashes_of db !! f) as [d|] eqn:Hf; simpl.
  - case_decide; by subst.
  - case_decide; subst.
    + by rewrite lookup_insert_eq.
    + by rewrite lookup_insert_ne.
Qed.

Lemma ledger_after_not_corrupt db f h :
  db ≠ DbCorrupt → ledger_after db f h ≠ DbCorrupt.
Proof. unfold ledger_after. by destruct (known_hashes_of db !! f). Qed.

(** The body of the loop on an artifact that can be read. *)
Lemma validate_one_spec st f content :
  assoc f (backups st) = Some (Readable content) →
  hash_db st ≠ DbCorrupt →
  let outcome := expected_outcome (known_hashes_of (hash_db st) !! f)
                   (sha256 content) in
  validate_one sha256 f st =
    (set_stdout (stdout st ++ [LogValidationItem outcome.1 f outcome.2])
       (set_integrity_status
          (<[f := mkIntegrityEntry outcome.1 outcome.2 (clock_iso st)]>
             (integrity_status st))
          (set_hash_db (ledger_after (hash_db st) f (sha256 content)) st)),
     inr tt).
Proof.
  intros Hf Hdb outcome. unfold validate_one.
  unfold mbind at 1, M_bind at 1.
  rewrite (verify_backup_spec st f content Hf Hdb).
  fold outcome. by destruct outcome.
Qed.

(** The body of the loop on an entry that cannot be read. *)
Lemma validate_one_unreadable st f err :
  assoc f (backups st) = Some (Unreadable err) →
  validate_one sha256 f st = (st, inl (OSError err)).
Proof.
  intros Hf. unfold validate_one. unfold mbind at 1, M_bind at 1.
  by rewrite (verify_backup_unreadable sha256 st f err).
Qed.

(** What the validation agent never writes. *)
Definition validation_frame (st st' : State) : Prop :=
  critical_services st' = critical_services st ∧
  backups st' = backups st ∧
  production st' = production st ∧
  copy_faults st' = copy_faults st ∧
  clock_ymd st' = clock_ymd st ∧
  clock_iso st' = clock_iso st ∧
  current_demands st' = current_demands st.

Lemma validation_frame_refl st : validation_frame st st.
Proof. by repeat split. Qed.

Lemma validation_frame_trans st1 st2 st3 :
  validation_frame st1 st2 → validation_frame st2 st3 →
  validation_frame st1 st3.
Proof.
  intros (?&?&?&?&?&?&?) (?&?&?&?&?&?&?). repeat split; congruence.
Qed.

Lemma validate_one_frame st f :
  validation_frame st (fst (validate_one sha256 f st)).
Proof.
  unfold validate_one. unfold mbind at 1, M_bind at 1.
  pose proof (verify_backup_frame sha256 st f) as Hframe.
  destruct (verify_backup sha256 f st) as [st1 [e|[v msg]]];
    simpl in *; rewrite Hframe; by repeat split.
Qed.

Lemma for_each_validate_frame names st :
  validation_frame st (fst (for_each names (validate_one sha256) st)).
Proof.
  revert st. induction names as [|f names IH]; intros st; simpl.
  - apply validation_frame_refl.
  - unfold mbind, M_bind.
    pose proof (validate_one_frame st f) as Hone.
    destruct (validate_one sha256 f st) as [st1 [e|[]]]; simpl in *; [done|].
    eapply validation_frame_trans; [exact Hone | apply IH].
Qed.

(** The loop of the cycle on entries that can all be read. *)
Lemma for_each_validate_spec names st :
  NoDup names →
  (∀ g, g ∈ names → ∃ c, assoc g (backups st) = Some (Readable c)) →
  hash_db st ≠ DbCorrupt →
  ∃ st',
    for_each names (validate_one sha256) st = (st', inr tt) ∧
    hash_db st' ≠ DbCorrupt ∧
    (∀ g c, g ∈ names → assoc g (backups st) = Some (Readable c) →
       let prior := known_hashes_of (hash_db st) !! g in
       integrity_status st' !! g =
         Some (mkIntegrityEntry (expected_outcome prior (sha256 c)).1
                 (expected_outcome prior (sha256 c)).2 (clock_iso st)) ∧
       known_hashes_of (hash_db st') !! g =
         Some (default (sha256 c) prior)) ∧
    (∀ g, g ∉ names →
       integrity_status st' !! g = integrity_status st !! g ∧
       known_hashes_of (hash_db st') !! g =
         known_hashes_of (hash_db st) !! g).
Proof.
  revert st.
  induction names as [|f names IH]; intros st Hnd Hread Hdb; simpl.
  - exists st. split; [done|]. split; [done|]. split; [|done].
    intros g c Hin. by apply elem_of_nil in Hin.
  - apply NoDup_cons in Hnd as [Hfresh Hnd].
    destruct (Hread f) as [cf Hf]; [apply elem_of_cons; by left|].
    pose proof (validate_one_spec st f cf Hf Hdb) as Hone.
    cbv zeta in Hone.
    set (st1 := set_stdout _ _) in Hone.
    destruct (IH st1 Hnd) as (st' & Hloop & Hdb' & Hin & Hout).
    + intros g Hg. apply Hread. apply elem_of_cons; by right.
    + by apply ledger_after_not_corrupt.
    + exists st'. unfold mbind, M_bind. rewrite Hone.
      split; [done|]. split; [done|]. split.
      * intros g c Hg Hgc.
        destruct (decide (g = f)) as [->|Hne].
        -- destruct (Hout f Hfresh) as [Hs Hk]. rewrite Hs, Hk.
           subst st1. simpl. rewrite lookup_insert_eq, ledger_after_lookup.
           rewrite decide_True by done.
           assert (c = cf) as -> by congruence. done.
        -- apply elem_of_cons in Hg as [?|Hg]; [done|].
           destruct (Hin g c Hg Hgc) as [Hs Hk]. cbv zeta in Hs, Hk.
           subst st1. simpl in Hs, Hk.
           rewrite ledger_after_lookup, decide_False in Hs, Hk by done.
           done.
      * intros g Hg. apply not_elem_of_cons in Hg as [Hne Hg].
        destruct (Hout g Hg) as [Hs Hk]. rewrite Hs, Hk.
        subst st1. simpl.
        by rewrite lookup_insert_ne, ledger_after_lookup, decide_False.
Qed.

Lemma for_each_app {A : Type} (xs ys : list A) (body : A → M unit) st :
  for_each (xs ++ ys) body st =
    match for_each xs body st with
    | (st', inl e) => (st', inl e)
    | (st', inr _) => for_each ys body st'
    end.
Proof.
  revert st. induction xs as [|x xs IH]; intros st; [done|].
  simpl. unfold mbind, M_bind.
  destruct (body x st) as [st1 [e|[]]]; [done | apply IH].
Qed.

Lemma full_validation_cycle_unfold st :
  full_validation_cycle sha256 st =
    match for_each (backups st).*1 (validate_one sha256)
            (set_stdout (stdout st ++ [LogValidationStart]) st) with
    | (st1, inl e) => (st1, inl e)
    | (st1, inr _) =>
        (set_stdout (stdout st1 ++ [LogValidationDone]) st1,
         inr (integrity_status st1))
    end.
Proof.
  unfold full_validation_cycle. unfold_monad. simpl.
  by destruct (for_each _ _ _) as [st1 [e|[]]].
Qed.

(** C3, as the code has it. An I/O failure while reading or hashing an
    artifact during [full_validation_cycle] is not caught: it propagates
    out of the cycle, which stops at that artifact.  The artifacts listed
    before it have been verified and have their new status entry (valid
    when the artifact is new or matches its recorded digest, invalid
    otherwise, stamped with the current time); the failing artifact and
    the artifacts listed after it get no status in that cycle: their
    entries, like those of all other names, are what they were before
    it. *)
Theorem validation_cycle_aborts_on_read_failure st
    (pre post : list (string * Node)) f err :
  backups st = (pre ++ (f, Unreadable err) :: post)%list →
  NoDup (backups st).*1 →
  (∀ name node, (name, node) ∈ pre → ∃ content, node = Readable content) →
  hash_db st ≠ DbCorrupt →
  let r := full_validation_cycle sha256 st in
  snd r = inl (OSError err) ∧
  (∀ name content, (name, Readable content) ∈ pre →
     let prior := known_hashes_of (hash_db st) !! name in
     integrity_status (fst r) !! name =
       Some (mkIntegrityEntry
               (expected_outcome prior (sha256 content)).1
               (expected_outcome prior (sha256 content)).2
               (clock_iso st))) ∧
  (∀ name, name ∉ pre.*1 →
     integrity_status (fst r) !! name = integrity_status st !! name).
Proof.
  intros Hb Hnodup Hpre Hdb r. subst r.
  rewrite Hb, fmap_app, fmap_cons in Hnodup. simpl in Hnodup.
  pose proof Hnodup as Hnd.
  apply NoDup_app in Hnd as (Hndpre & Hdisj & _).
  assert (Hfresh : f ∉ pre.*1).
  { intros Hin. apply (Hdisj f Hin). apply elem_of_cons; by left. }
  set (st0 := set_stdout (stdout st ++ [LogValidationStart]) st).
  assert (Hassoc : ∀ name content, (name, Readable content) ∈ pre →
            assoc name (backups st0) = Some (Readable content)).
  { intros name content Hin. simpl. rewrite Hb, assoc_app_l.
    - by apply assoc_NoDup.
    - apply list_elem_of_fmap. by exists (name, Readable content). }
  destruct (for_each_validate_spec pre.*1 st0 Hndpre)
    as (st1 & Hloop & _ & Hin & Hout).
  { intros g Hg. apply list_elem_of_fmap in Hg as ([name node] & -> & Hel).
    destruct (Hpre name node Hel) as [content ->].
    exists content. by apply Hassoc. }
  { done. }
  assert (Hback : backups st1 = backups st).
  { pose proof (for_each_validate_frame pre.*1 st0) as (_ & Hframe & _).
    by rewrite Hloop in Hframe. }
  assert (Hf : assoc f (backups st1) = Some (Unreadable err)).
  { rewrite Hback, Hb, assoc_app_r by done. simpl.
    by rewrite String.eqb_refl. }
  rewrite full_validation_cycle_unfold. fold st0.
  rewrite Hb, fmap_app, fmap_cons, for_each_app, Hloop. simpl.
  unfold mbind, M_bind. rewrite (validate_one_unreadable st1 f err Hf).
  simpl. split; [done|]. split.
  - intros name content Hel.
    apply (Hin name content); [|by apply Hassoc].
    apply list_elem_of_fmap. by exists (name, Readable content).
  - intros name Hname. apply (Hout name Hname).
Qed.

End ValidationCycle.

Section Binary64.

(** Facts on the rounding of [SpecFloat] at the binary64 format. *)

Local Open Scope Z_scope.

Lemma digits2_pos_bounds (m : positive) :
  2 ^ (Zpos (digits2_pos m) - 1) ≤ Zpos m < 2 ^ Zpos (digits2_pos m).
Proof.
  induction m as [m IH|m IH|]; simpl digits2_pos.
  - rewrite Pos2Z.inj_succ.
    replace (Z.succ (Zpos (digits2_pos m)) - 1)
      with (Z.succ (Zpos (digits2_pos m) - 1)) by lia.
    rewrite !Z.pow_succ_r by lia. lia.
  - rewrite Pos2Z.inj_succ.
    replace (Z.succ (Zpos (digits2_pos m)) - 1)
      with (Z.succ (Zpos (digits2_pos m) - 1)) by lia.
    rewrite !Z.pow_succ_r by lia. lia.
  - simpl. lia.
Qed.

Lemma shr_m_shr_1 mrs :
  0 ≤ shr_m mrs → shr_m (shr_1 mrs) = shr_m mrs / 2.
Proof.
  destruct mrs as [m r s]. simpl. intros Hm.
  destruct m as [|[p|p|]|p]; simpl; try reflexivity; try lia.
  - rewrite (Pos2Z.inj_xI p). apply Z.div_unique with 1; lia.
  - rewrite (Pos2Z.inj_xO p). apply Z.div_unique with 0; lia.
Qed.

Lemma pow2_xI p : 2 ^ Zpos p~1 = 2 * 2 ^ Zpos p * 2 ^ Zpos p.
Proof.
  rewrite (Pos2Z.inj_xI p).
  replace (2 * Zpos p + 1) with (Zpos p + Zpos p + 1) by lia.
  rewrite !Z.pow_add_r by lia. lia.
Qed.

Lemma pow2_xO p : 2 ^ Zpos p~0 = 2 ^ Zpos p * 2 ^ Zpos p.
Proof.
  rewrite (Pos2Z.inj_xO p).
  replace (2 * Zpos p) with (Zpos p + Zpos p) by lia.
  by rewrite Z.pow_add_r by lia.
Qed.

Lemma shr_m_iter_pos p mrs :
  0 ≤ shr_m mrs →
  shr_m (SpecFloat.iter_pos shr_1 p mrs) = shr_m mrs / 2 ^ Zpos p.
Proof.
  revert mrs. induction p as [p IH|p IH|]; intros mrs Hm; simpl SpecFloat.iter_pos.
  - assert (Hp : 0 < 2 ^ Zpos p) by (by apply Z.pow_pos_nonneg).
    assert (H1 : 0 ≤ shr_m (shr_1 mrs)).
    { rewrite shr_m_shr_1 by done. by apply Z.div_pos. }
    assert (H2 : 0 ≤ shr_m (SpecFloat.iter_pos shr_1 p (shr_1 mrs))).
    { rewrite IH by done. by apply Z.div_pos. }
    rewrite !IH, shr_m_shr_1 by done.
    rewrite !Z.div_div by lia. by rewrite pow2_xI, Z.mul_assoc.
  - assert (Hp : 0 < 2 ^ Zpos p) by (by apply Z.pow_pos_nonneg).
    assert (H2 : 0 ≤ shr_m (SpecFloat.iter_pos shr_1 p mrs)).
    { rewrite IH by done. by apply Z.div_pos. }
    rewrite !IH by done. rewrite Z.div_div by lia. by rewrite pow2_xO.
  - by rewrite shr_m_shr_1.
Qed.

(** The mantissa and the exponent after a shift by [n] bits. *)
Lemma shr_spec mrs e n :
  0 ≤ shr_m mrs →
  shr_m (fst (shr mrs e n)) = shr_m mrs / 2 ^ Z.max n 0 ∧
  snd (shr mrs e n) = e + Z.max n 0.
Proof.
  intros Hm. destruct n as [|p|p]; simpl.
  - rewrite Z.div_1_r. lia.
  - by rewrite shr_m_iter_pos.
  - rewrite Z.div_1_r. lia.
Qed.

Lemma shr_record_of_loc_m m l : shr_m (shr_record_of_loc m l) = m.
Proof. by destruct l as [|[]]. Qed.

Lemma round_nearest_even_bounds m l :
  m ≤ round_nearest_even m l ≤ m + 1.
Proof.
  destruct l as [|[]]; simpl; try lia. destruct (Z.even m); lia.
Qed.

(** Shifting a positive mantissa by fewer bits than it has leaves a
    positive mantissa. *)
Lemma shifted_mantissa_positive m n :
  0 < m → n ≤ Zdigits2 m - 1 → 0 < m / 2 ^ Z.max n 0.
Proof.
  intros Hm Hn. destruct m as [|p|p]; try lia. simpl in Hn.
  pose proof (digits2_pos_bounds p) as [Hlow _].
  apply Z.div_str_pos. split; [by apply Z.pow_pos_nonneg; lia|].
  etransitivity; [|exact Hlow]. apply Z.pow_le_mono_r; lia.
Qed.

(** Rounding a positive number that is not below the smallest positive
    [float] gives a positive [float], or overflows. *)
Lemma binary_round_aux_positive s m e :
  emin Py.prec Py.emax ≤ e + Zpos (digits2_pos m) - 1 →
  (∃ m' e',
     binary_round_aux Py.prec Py.emax s (Zpos m) e loc_Exact =
       S754_finite s m' e' ∧
     emin Py.prec Py.emax ≤ e') ∨
  binary_round_aux Py.prec Py.emax s (Zpos m) e loc_Exact = S754_infinity s.
Proof.
  intros Hmin. unfold binary_round_aux, shr_fexp.
  set (n1 := fexp Py.prec Py.emax (Zdigits2 (Zpos m) + e) - e).
  destruct (shr_spec (shr_record_of_loc (Zpos m) loc_Exact) e n1)
    as [Hm1 He1]; [simpl; lia|].
  destruct (shr _ e n1) as [mrs1 e1]. simpl in Hm1, He1.
  assert (Hn1 : n1 ≤ Zpos (digits2_pos m) - 1).
  { subst n1. unfold fexp, emin, Py.prec, Py.emax in *. simpl Zdigits2. lia. }
  assert (Hpos1 : 0 < shr_m mrs1).
  { rewrite Hm1. by apply shifted_mantissa_positive. }
  assert (He1min : emin Py.prec Py.emax ≤ e1).
  { subst n1 e1. unfold fexp, emin, Py.prec, Py.emax in *. simpl Zdigits2. lia. }
  pose proof (round_nearest_even_bounds (shr_m mrs1)
                (loc_of_shr_record mrs1)) as Hround.
  set (m2 := round_nearest_even (shr_m mrs1) (loc_of_shr_record mrs1)) in *.
  set (n2 := fexp Py.prec Py.emax (Zdigits2 m2 + e1) - e1).
  destruct (shr_spec (shr_record_of_loc m2 loc_Exact) e1 n2)
    as [Hm2 He2]; [simpl; lia|].
  destruct (shr _ e1 n2) as [mrs2 e2]. simpl in Hm2, He2.
  assert (Hd2 : 1 ≤ Zdigits2 m2).
  { destruct m2 as [|p|p]; simpl; lia. }
  assert (Hn2 : n2 ≤ Zdigits2 m2 - 1).
  { subst n2. unfold fexp, emin, Py.prec, Py.emax in *. lia. }
  assert (Hpos2 : 0 < shr_m mrs2).
  { rewrite Hm2. apply shifted_mantissa_positive; [lia | done]. }
  destruct (shr_m mrs2) as [|p|p]; try lia.
  destruct (e2 <=? Py.emax - Py.prec); [|by right].
  left. exists p, e2. split; [done | lia].
Qed.

(** The conversion of a positive [int] gives a positive [float]. *)
Lemma float_of_int_positive t x :
  0 < t → Py.float_of_int t = inr x →
  ∃ m e, x = S754_finite false m e ∧ emin Py.prec Py.emax ≤ e.
Proof.
  intros Ht. destruct t as [|p|p]; try lia.
  unfold Py.float_of_int, binary_normalize, binary_round.
  destruct (shl_align p 0 _) as [mz ez] eqn:Halign.
  assert (Hez : emin Py.prec Py.emax ≤ ez + Zpos (digits2_pos mz) - 1).
  { revert Halign. unfold shl_align.
    set (target := fexp Py.prec Py.emax (Zpos (digits2_pos p) + 0)).
    assert (emin Py.prec Py.emax ≤ target).
    { subst target. unfold fexp. lia. }
    destruct (target - 0) eqn:Hd; intros [= <- <-];
      unfold emin, Py.prec, Py.emax in *; lia. }
  destruct (binary_round_aux_positive false mz ez Hez)
    as [(m' & e' & -> & He') | ->]; [|done].
  intros [= <-]. by exists m', e'.
Qed.

(** The product of a positive [float] by a positive [float] of at least 53
    bits is positive. *)
Lemma SFmul_positive m e c ce :
  emin Py.prec Py.emax ≤ e →
  2 ^ 52 ≤ Zpos c → ce = -52 →
  (∃ m' e',
     SFmul Py.prec Py.emax (S754_finite false m e) (S754_finite false c ce) =
       S754_finite false m' e') ∨
  SFmul Py.prec Py.emax (S754_finite false m e) (S754_finite false c ce) =
    S754_infinity false.
Proof.
  intros He Hc ->. simpl SFmul.
  destruct (binary_round_aux_positive false (m * c) (e + -52))
    as [(m' & e' & -> & _) | ->]; [|by eauto|by right].
  pose proof (digits2_pos_bounds (m * c)) as [_ Hup].
  assert (52 < Zpos (digits2_pos (m * c))); [|lia].
  apply (Z.pow_lt_mono_r_iff 2); [lia | lia |].
  eapply Z.le_lt_trans; [|exact Hup]. rewrite Pos2Z.inj_mul. nia.
Qed.

(** The literals: [float_1_5] is 3/2, and [float_0_1] is within half a
    unit in the last place (2^-57) of 1/10. *)
Lemma float_literals :
  Py.float_1_5 = Py.float_of_parts false 6755399441055744 (-52) ∧
  (num_value (PyFloat false 6755399441055744 (-52)) == 3 # 2)%Q ∧
  Py.float_0_1 = Py.float_of_parts false 7205759403792794 (-56) ∧
  (Qabs.Qabs (num_value (PyFloat false 7205759403792794 (-56)) - (1 # 10))
     <= 1 # 2 ^ 57)%Q.
Proof.
  split; [done|]. split; [done|]. split; [done|].
  vm_compute. discriminate.
Qed.

(** *** Exact operations *)

Lemma digits2_pos_unique m d :
  2 ^ (d - 1) ≤ Zpos m < 2 ^ d → Zpos (digits2_pos m) = d.
Proof.
  intros [Hlow Hup]. pose proof (digits2_pos_bounds m) as [Hlow' Hup'].
  set (D := Zpos (digits2_pos m)) in *.
  destruct (Z.lt_trichotomy D d) as [Hlt|[Heq|Hgt]]; [|done|].
  - assert (2 ^ D ≤ 2 ^ (d - 1)) by (apply Z.pow_le_mono_r; lia). lia.
  - assert (2 ^ d ≤ 2 ^ (D - 1)) by (apply Z.pow_le_mono_r; lia). lia.
Qed.

Lemma shr_1_double m :
  0 < m →
  shr_1 (Build_shr_record (2 * m) false false) = Build_shr_record m false false.
Proof. by destruct m. Qed.

Lemma shr_exact p m :
  0 < m →
  SpecFloat.iter_pos shr_1 p (Build_shr_record (2 ^ Zpos p * m) false false) =
    Build_shr_record m false false.
Proof.
  revert m. induction p as [p IH|p IH|]; intros m Hm; cbn [SpecFloat.iter_pos].
  - assert (Hp : 0 < 2 ^ Zpos p) by (by apply Z.pow_pos_nonneg).
    rewrite pow2_xI.
    replace (2 * 2 ^ Zpos p * 2 ^ Zpos p * m)
      with (2 * (2 ^ Zpos p * (2 ^ Zpos p * m))) by lia.
    rewrite shr_1_double by nia. rewrite IH by nia. by rewrite IH.
  - assert (Hp : 0 < 2 ^ Zpos p) by (by apply Z.pow_pos_nonneg).
    rewrite pow2_xO.
    replace (2 ^ Zpos p * 2 ^ Zpos p * m)
      with (2 ^ Zpos p * (2 ^ Zpos p * m)) by lia.
    rewrite IH by nia. by rewrite IH.
  - change (2 ^ 1) with 2. by apply shr_1_double.
Qed.

Lemma binary_round_aux_exact s X n E :
  2 ^ 52 ≤ Zpos X < 2 ^ 53 →
  0 ≤ n →
  emin Py.prec Py.emax ≤ E + n ≤ Py.emax - Py.prec →
  binary_round_aux Py.prec Py.emax s (2 ^ n * Zpos X) E loc_Exact =
    S754_finite s X (E + n).
Proof.
  intros HX Hn HE.
  assert (Hpow : 0 < 2 ^ n) by (by apply Z.pow_pos_nonneg).
  destruct (2 ^ n * Zpos X) as [|M|M] eqn:HM; try lia.
  assert (HdM : Zpos (digits2_pos M) = 53 + n).
  { apply digits2_pos_unique. rewrite <- HM.
    replace (53 + n - 1) with (n + 52) by lia.
    replace (53 + n) with (n + 53) by lia.
    rewrite !Z.pow_add_r by lia. nia. }
  assert (HdX : Zpos (digits2_pos X) = 53).
  { by apply digits2_pos_unique. }
  unfold binary_round_aux, shr_fexp. simpl Zdigits2. rewrite HdM.
  replace (fexp Py.prec Py.emax (53 + n + E) - E) with n
    by (unfold fexp, emin, Py.prec, Py.emax in *; lia).
  assert (Hshift : shr (shr_record_of_loc (Zpos M) loc_Exact) E n =
                     (Build_shr_record (Zpos X) false false, E + n)).
  { destruct n as [|p|p]; try lia.
    - simpl. f_equal; [|lia]. f_equal. rewrite Z.pow_0_r in HM. lia.
    - simpl. f_equal. rewrite <- HM. by apply shr_exact. }
  rewrite Hshift. simpl Zdigits2. rewrite HdX.
  replace (fexp Py.prec Py.emax (53 + (E + n)) - (E + n)) with 0
    by (unfold fexp, emin, Py.prec, Py.emax in *; lia).
  simpl. destruct (E + n <=? Py.emax - Py.prec) eqn:Hle; [done|].
  apply Z.leb_gt in Hle. lia.
Qed.

(** The [float] of sign [s] and magnitude [t * 2 ^ e], for [t] below
    2^53: its mantissa is [t] shifted to 53 bits. *)
Definition scaled (s : bool) (t : positive) (e : Z) : spec_float :=
  let d := Zpos (digits2_pos t) in
  S754_finite s (Z.to_pos (2 ^ (53 - d) * Zpos t)) (e + d - 53).

Lemma scaled_mantissa t :
  Zpos t < 2 ^ 53 →
  Zpos (digits2_pos t) ≤ 53 ∧
  2 ^ 52 ≤ 2 ^ (53 - Zpos (digits2_pos t)) * Zpos t < 2 ^ 53.
Proof.
  intros Ht. pose proof (digits2_pos_bounds t) as [Hlow Hup].
  set (d := Zpos (digits2_pos t)) in *.
  assert (Hd : d ≤ 53).
  { assert (d - 1 < 53); [|lia].
    apply (Z.pow_lt_mono_r_iff 2); lia. }
  split; [done|].
  assert (E52 : 2 ^ 52 = 2 ^ (53 - d) * 2 ^ (d - 1)).
  { rewrite <- Z.pow_add_r by lia. f_equal. lia. }
  assert (E53 : 2 ^ 53 = 2 ^ (53 - d) * 2 ^ d).
  { rewrite <- Z.pow_add_r by lia. f_equal. lia. }
  assert (0 < 2 ^ (53 - d)) by (apply Z.pow_pos_nonneg; lia).
  rewrite E52, E53. nia.
Qed.

Lemma iter_xO t k : Zpos (Pos.iter xO t k) = 2 ^ Zpos k * Zpos t.
Proof.
  induction k as [|k IH] using Pos.peano_ind.
  - done.
  - rewrite Pos.iter_succ, Pos2Z.inj_xO, IH, Pos2Z.inj_succ.
    rewrite Z.pow_succ_r by lia. lia.
Qed.

Lemma binary_round_scaled s t :
  Zpos t < 2 ^ 53 →
  binary_round Py.prec Py.emax s t 0 = scaled s t 0.
Proof.
  intros Ht. destruct (scaled_mantissa t Ht) as [Hd Hm].
  unfold binary_round, scaled, shl_align. cbv zeta.
  set (d := Zpos (digits2_pos t)) in *.
  assert (1 ≤ d) by (subst d; lia).
  replace (fexp Py.prec Py.emax (d + 0) - 0) with (d - 53)
    by (unfold fexp, emin, Py.prec, Py.emax; lia).
  replace (fexp Py.prec Py.emax (d + 0)) with (d - 53)
    by (unfold fexp, emin, Py.prec, Py.emax; lia).
  assert (Hexact : ∀ X : positive,
            Zpos X = 2 ^ (53 - d) * Zpos t →
            binary_round_aux Py.prec Py.emax s (Zpos X) (d - 53) loc_Exact =
              S754_finite s (Z.to_pos (2 ^ (53 - d) * Zpos t)) (0 + d - 53)).
  { intros X HX. rewrite <- HX. simpl Z.to_pos.
    replace (Zpos X) with (2 ^ 0 * Zpos X) at 1 by lia.
    rewrite binary_round_aux_exact.
    - f_equal. lia.
    - by rewrite HX.
    - done.
    - unfold emin, Py.prec, Py.emax; lia. }
  destruct (d - 53) as [|k|k] eqn:Hk; try lia.
  - apply Hexact. replace (53 - d) with 0 by lia. simpl. lia.
  - apply Hexact. rewrite iter_xO. f_equal. f_equal. lia.
Qed.

Lemma SFmul_scaled s1 t1 e1 s2 t2 e2 :
  Zpos (t1 * t2) < 2 ^ 53 →
  emin Py.prec Py.emax ≤ e1 + e2 + Zpos (digits2_pos (t1 * t2)) - 53
    ≤ Py.emax - Py.prec →
  SFmul Py.prec Py.emax (scaled s1 t1 e1) (scaled s2 t2 e2) =
    scaled (xorb s1 s2) (t1 * t2) (e1 + e2).
Proof.
  intros Ht He.
  assert (Ht1 : Zpos t1 < 2 ^ 53) by (rewrite Pos2Z.inj_mul in Ht; nia).
  assert (Ht2 : Zpos t2 < 2 ^ 53) by (rewrite Pos2Z.inj_mul in Ht; nia).
  destruct (scaled_mantissa t1 Ht1) as [Hd1 Hm1].
  destruct (scaled_mantissa t2 Ht2) as [Hd2 Hm2].
  destruct (scaled_mantissa (t1 * t2) Ht) as [Hd Hm].
  pose proof (digits2_pos_bounds t1) as [Hl1 Hu1].
  pose proof (digits2_pos_bounds t2) as [Hl2 Hu2].
  pose proof (digits2_pos_bounds (t1 * t2)) as [Hl Hu].
  unfold scaled. cbv zeta. simpl SFmul.
  set (d1 := Zpos (digits2_pos t1)) in *.
  set (d2 := Zpos (digits2_pos t2)) in *.
  set (d := Zpos (digits2_pos (t1 * t2))) in *.
  assert (Hd12 : d1 + d2 - 1 ≤ d).
  { assert (d1 + d2 - 2 < d); [|lia].
    apply (Z.pow_lt_mono_r_iff 2); [lia | lia |].
    eapply Z.le_lt_trans; [|exact Hu].
    replace (d1 + d2 - 2) with ((d1 - 1) + (d2 - 1)) by lia.
    rewrite Z.pow_add_r by lia. rewrite Pos2Z.inj_mul.
    apply Z.mul_le_mono_nonneg; lia. }
  set (n := 53 - d1 - d2 + d).
  assert (Hmant :
    Zpos (Z.to_pos (2 ^ (53 - d1) * Zpos t1) *
          Z.to_pos (2 ^ (53 - d2) * Zpos t2)) =
    2 ^ n * Zpos (Z.to_pos (2 ^ (53 - d) * Zpos (t1 * t2)))).
  { rewrite Pos2Z.inj_mul, !Z2Pos.id by lia.
    rewrite Pos2Z.inj_mul.
    replace (2 ^ n * (2 ^ (53 - d) * (Zpos t1 * Zpos t2)))
      with (2 ^ n * 2 ^ (53 - d) * (Zpos t1 * Zpos t2)) by lia.
    rewrite <- Z.pow_add_r by lia.
    replace (n + (53 - d)) with ((53 - d1) + (53 - d2)) by lia.
    rewrite Z.pow_add_r by lia. lia. }
  rewrite Hmant, binary_round_aux_exact.
  - f_equal. lia.
  - rewrite Z2Pos.id by lia. done.
  - lia.
  - unfold emin, Py.prec, Py.emax in *. lia.
Qed.

Lemma scaled_double s t e :
  Zpos t~0 < 2 ^ 53 → scaled s t~0 e = scaled s t (e + 1).
Proof.
  intros Ht. destruct (scaled_mantissa _ Ht) as [Hd _].
  unfold scaled. cbv zeta. simpl digits2_pos in *.
  rewrite Pos2Z.inj_succ in *.
  set (d := Zpos (digits2_pos t)) in *.
  f_equal; [|lia]. f_equal. rewrite (Pos2Z.inj_xO t).
  replace (53 - d) with (Z.succ (53 - Z.succ d)) by lia.
  rewrite Z.pow_succ_r by lia. lia.
Qed.

(** [z < t * 2^-1] for an integer [z] and the [float] of an integer
    halved. *)
Lemma int_lt_scaled_half z s t :
  Zpos t < 2 ^ 53 →
  Py.int_lt_float z (scaled s t (-1)) =
    (2 * z <? (if s then Zneg t else Zpos t)).
Proof.
  intros Ht. destruct (scaled_mantissa t Ht) as [Hd Hm].
  unfold scaled. cbv zeta.
  set (d := Zpos (digits2_pos t)) in *.
  assert (1 ≤ d) by (subst d; lia).
  unfold Py.int_lt_float.
  destruct (-1 + d - 53) as [|k|k] eqn:Hk; try lia.
  assert (Hpow : 2 ^ Zpos k = 2 * 2 ^ (53 - d)).
  { replace (Zpos k) with (Z.succ (53 - d)) by lia.
    rewrite Z.pow_succ_r by lia. done. }
  assert (0 < 2 ^ (53 - d)) by (apply Z.pow_pos_nonneg; lia).
  rewrite Hpow.
  destruct s.
  - change (Zneg (Z.to_pos (2 ^ (53 - d) * Zpos t)))
      with (- Zpos (Z.to_pos (2 ^ (53 - d) * Zpos t))).
    rewrite Z2Pos.id by lia.
    destruct (Z.ltb_spec (z * (2 * 2 ^ (53 - d))) (- (2 ^ (53 - d) * Zpos t))),
      (Z.ltb_spec (2 * z) (Zneg t)); try done; nia.
  - rewrite Z2Pos.id by lia.
    destruct (Z.ltb_spec (z * (2 * 2 ^ (53 - d))) (2 ^ (53 - d) * Zpos t)),
      (Z.ltb_spec (2 * z) (Zpos t)); try done; nia.
Qed.

Lemma float_of_int_scaled t :
  Zpos t < 2 ^ 53 →
  Py.float_of_int (Zpos t) = inr (scaled false t 0) ∧
  Py.float_of_int (Zneg t) = inr (scaled true t 0).
Proof.
  intros Ht. unfold Py.float_of_int, binary_normalize.
  by rewrite !binary_round_scaled.
Qed.

Lemma float_1_5_scaled : Py.float_1_5 = scaled false 3 (-1).
Proof. reflexivity. Qed.

(** The [float] 10.0. *)
Definition float_10 : spec_float := S754_finite false 5629499534213120 (-49).

Lemma float_10_scaled : float_10 = scaled false 5 1.
Proof. reflexivity. Qed.

(** For an integer threshold of magnitude below 2^51 the product by 1.5
    is exact. *)
Lemma restore_mode_exact z T :
  Z.abs T < 2 ^ 51 →
  restore_mode z (PyInt T) = inr (2 * z <? 3 * T).
Proof.
  intros HT. unfold restore_mode, Py.mul, Py.as_float.
  destruct T as [|t|t].
  - simpl. f_equal.
    destruct (Z.ltb_spec z 0), (Z.ltb_spec (2 * z) 0); try done; lia.
  - assert (Ht : Zpos t < 2 ^ 53) by lia.
    destruct (float_of_int_scaled t Ht) as [-> _].
    rewrite float_1_5_scaled, SFmul_scaled.
    + rewrite int_lt_scaled_half by (rewrite Pos2Z.inj_mul; lia).
      simpl xorb. cbv iota. f_equal. f_equal. lia.
    + rewrite Pos2Z.inj_mul; lia.
    + destruct (scaled_mantissa (t * 3)) as [Hd _];
        [rewrite Pos2Z.inj_mul; lia|].
      unfold emin, Py.prec, Py.emax. lia.
  - assert (Ht : Zpos t < 2 ^ 53) by lia.
    destruct (float_of_int_scaled t Ht) as [_ ->].
    rewrite float_1_5_scaled, SFmul_scaled.
    + rewrite int_lt_scaled_half by (rewrite Pos2Z.inj_mul; lia).
      simpl xorb. cbv iota. f_equal. f_equal. lia.
    + rewrite Pos2Z.inj_mul; lia.
    + destruct (scaled_mantissa (t * 3)) as [Hd _];
        [rewrite Pos2Z.inj_mul; lia|].
      unfold emin, Py.prec, Py.emax. lia.
Qed.

(** For an integer priority of magnitude below 2^49 the product by 10.0
    is exact: it is the [float] of ten times the priority. *)
Lemma times_ten_exact p :
  Z.abs p < 2 ^ 49 →
  Py.mul (PyInt p) float_10 = Py.float_of_int (10 * p).
Proof.
  intros Hp. unfold Py.mul, Py.as_float.
  destruct p as [|t|t].
  - reflexivity.
  - assert (Ht : Zpos t < 2 ^ 53) by lia.
    destruct (float_of_int_scaled t Ht) as [-> _].
    change (10 * Zpos t) with (Zpos (10 * t)).
    assert (E : (10 * t = (t * 5)~0)%positive) by lia. rewrite E.
    destruct (float_of_int_scaled (t * 5)~0) as [-> _]; [lia|].
    rewrite float_10_scaled, SFmul_scaled, scaled_double; [done|lia|lia|].
    destruct (scaled_mantissa (t * 5)) as [Hd _]; [lia|].
    unfold emin, Py.prec, Py.emax. lia.
  - assert (Ht : Zpos t < 2 ^ 53) by lia.
    destruct (float_of_int_scaled t Ht) as [_ ->].
    change (10 * Zneg t) with (Zneg (10 * t)).
    assert (E : (10 * t = (t * 5)~0)%positive) by lia. rewrite E.
    destruct (float_of_int_scaled (t * 5)~0) as [_ ->]; [lia|].
    rewrite float_10_scaled, SFmul_scaled, scaled_double; [done|lia|lia|].
    destruct (scaled_mantissa (t * 5)) as [Hd _]; [lia|].
    unfold emin, Py.prec, Py.emax. lia.
Qed.

End Binary64.

Section Orchestration.

Variable sha256 : list byte → string.

(** What a call leaves alone: the registry, the backup directory, the
    environment and the demand sample. *)
Definition same_inputs (st st' : State) : Prop :=
  critical_services st' = critical_services st ∧
  backups st' = backups st ∧
  copy_faults st' = copy_faults st ∧
  clock_ymd st' = clock_ymd st ∧
  current_demands st' = current_demands st.

Lemma restore_copy_frame st service f partial :
  ∃ p, fst (restore_copy service f partial st) = set_production p st.
Proof.
  assert (Hid : set_production (production st) st = st) by by destruct st.
  unfold restore_copy, try_except, target_exists, makedirs, shutil_copy.
  unfold_monad. cbn.
  repeat (case_match; simplify_eq/=); eauto.
Qed.

Lemma restore_service_frame st service f partial :
  same_inputs st (fst (restore_service sha256 service f partial st)) ∧
  stdout (fst (restore_service sha256 service f partial st)) =
    (stdout st ++ [LogRestoreStart service partial])%list.
Proof.
  rewrite restore_service_unfold. cbv zeta. rewrite verify_backup_stdout.
  pose proof (verify_backup_frame sha256 st f) as Hframe.
  destruct (verify_backup sha256 f st) as [st1 [e|[[] m]]]; simpl in *;
    rewrite Hframe; try done.
  match goal with
  | |- context [restore_copy ?s ?g ?b ?x] =>
      destruct (restore_copy_frame x s g b) as [p ->]
  end.
  done.
Qed.

(** The sampled demand of a service, as the loop reads it. *)
Definition sampled_demand (st : State) (service : string) : Z :=
  default 0%Z (current_demands st !! service).

(** An iteration whose mode is [partial]. *)
Lemma restore_iteration_unfold st service results data partial :
  assoc service (critical_services st) = Some data →
  restore_mode (sampled_demand st service) (demand_threshold data) =
    inr partial →
  restore_iteration sha256 service results st =
    match restore_service sha256 service
            (backup_file_name service (clock_ymd st)) partial st with
    | (st', inl e) => (st', inl e)
    | (st', inr (ok, msg)) =>
        (st', inr (<[service := mkRestoreResult ok msg]> results,
                   ok && Py.lt (sampled_demand st service)
                           (demand_threshold data)))
    end.
Proof.
  intros Hdata Hmode. unfold restore_iteration, sampled_demand in *.
  unfold_monad. simpl. rewrite Hdata, Hmode.
  destruct (restore_service _ _ _ _ _) as [st' [e|[ok msg]]]; done.
Qed.

(** An iteration in which the computation of the mode raises. *)
Lemma restore_iteration_raises st service results data e :
  assoc service (critical_services st) = Some data →
  restore_mode (sampled_demand st service) (demand_threshold data) = inl e →
  restore_iteration sha256 service results st = (st, inl e).
Proof.
  intros Hdata Hmode. unfold restore_iteration, sampled_demand in *.
  unfold_monad. simpl. by rewrite Hdata, Hmode.
Qed.

(** An iteration on a name that the registry does not have. *)
Lemma restore_iteration_unknown st service results :
  assoc service (critical_services st) = None →
  restore_iteration sha256 service results st = (st, inl (KeyError service)).
Proof.
  intros Hdata. unfold restore_iteration. unfold_monad. simpl.
  by rewrite Hdata.
Qed.

(** An iteration raises before it writes anything, or is a call of
    [restore_service]. *)
Lemma restore_iteration_cases st service results :
  (∃ e, restore_iteration sha256 service results st = (st, inl e)) ∨
  (∃ data partial,
     assoc service (critical_services st) = Some data ∧
     restore_mode (sampled_demand st service) (demand_threshold data) =
       inr partial ∧
     restore_iteration sha256 service results st =
       match restore_service sha256 service
               (backup_file_name service (clock_ymd st)) partial st with
       | (st', inl e) => (st', inl e)
       | (st', inr (ok, msg)) =>
           (st', inr (<[service := mkRestoreResult ok msg]> results,
                      ok && Py.lt (sampled_demand st service)
                              (demand_threshold data)))
       end).
Proof.
  destruct (assoc service (critical_services st)) as [data|] eqn:Hdata.
  - destruct (restore_mode (sampled_demand st service)
                (demand_threshold data)) as [e|partial] eqn:Hmode.
    + left. exists e. by apply (restore_iteration_raises _ _ _ data).
    + right. exists data, partial. split; [done|]. split; [done|].
      by apply restore_iteration_unfold.
  - left. eexists. by apply restore_iteration_unknown.
Qed.

(** The property of the specification: the restoration of a service runs
    in partial mode exactly when its sampled demand is below 1.5 times its
    threshold. *)
Definition mode_follows_threshold (st : State) (service : string) : Prop :=
  ∀ data results,
    assoc service (critical_services st) = Some data →
    ∃ partial : bool,
      (partial = true ↔
       (inject_Z (sampled_demand st service) <
          1.5 * num_value (demand_threshold data))%Q) ∧
      stdout (fst (restore_iteration sha256 service results st)) =
        (stdout st ++ [LogRestoreStart service partial])%list.

(** C6, as the code has it. In an iteration of [orchestrate_restorations]
    for a service with demand threshold [T] and sampled demand [d], the
    product [T * 1.5] is computed in binary64, an [int] threshold being
    converted first: when that conversion overflows, the iteration raises
    [OverflowError] before anything is restored.  Otherwise the
    restoration is run in partial mode exactly when [d] is below the
    rounded product, and in full mode otherwise: the iteration is
    [restore_service] in that mode, and the line it prints names that
    mode.  For an integer threshold [t] of magnitude below 2^51 the
    product is exact and the mode is partial exactly when [d < 1.5 * t]:
    in particular a demand of [1.49 * t] gives partial and a demand of
    [1.5 * t] gives full. *)
Theorem restore_mode_boundary st service data results :
  assoc service (critical_services st) = Some data →
  let d := sampled_demand st service in
  let T := demand_threshold data in
  match Py.mul T Py.float_1_5 with
  | inl e => restore_iteration sha256 service results st = (st, inl e)
  | inr product =>
      let partial := Py.int_lt_float d product in
      fst (restore_iteration sha256 service results st) =
        fst (restore_service sha256 service
               (backup_file_name service (clock_ymd st)) partial st) ∧
      stdout (fst (restore_iteration sha256 service results st)) =
        (stdout st ++ [LogRestoreStart service partial])%list
  end ∧
  ∀ t : Z, T = PyInt t → (Z.abs t < 2 ^ 51)%Z →
    restore_mode d T = inr (2 * d <? 3 * t)%Z ∧
    ∀ demand : Z,
      (0 < t)%Z →
      ((100 * demand = 149 * t)%Z → restore_mode demand T = inr true) ∧
      ((2 * demand = 3 * t)%Z → restore_mode demand T = inr false).
Proof.
  intros Hdata d T. split.
  - destruct (Py.mul T Py.float_1_5) as [e|product] eqn:Hmul.
    + apply (restore_iteration_raises _ _ _ data); [done|].
      unfold restore_mode. fold T. by rewrite Hmul.
    + cbv zeta.
      assert (Hfst : fst (restore_iteration sha256 service results st) =
                     fst (restore_service sha256 service
                            (backup_file_name service (clock_ymd st))
                            (Py.int_lt_float d product) st)).
      { rewrite (restore_iteration_unfold st service results data
                   (Py.int_lt_float d product)); [|done|].
        - destruct (restore_service _ _ _ _ _) as [st' [e|[ok msg]]]; done.
        - unfold restore_mode. fold T. by rewrite Hmul. }
      split; [done|]. rewrite Hfst. apply restore_service_frame.
  - intros t -> Ht. split; [by apply restore_mode_exact|].
    intros demand Hpos. split; intros Hdemand;
      rewrite restore_mode_exact by done; f_equal.
    + apply Z.ltb_lt. lia.
    + apply Z.ltb_ge. lia.
Qed.

Lemma restore_loop_stops st service rest results data m :
  assoc service (critical_services st) = Some data →
  restore_mode (sampled_demand st service) (demand_threshold data) =
    inr true →
  Py.lt (sampled_demand st service) (demand_threshold data) = true →
  let call := restore_service sha256 service
                (backup_file_name service (clock_ymd st)) true st in
  snd call = inr (true, m) →
  restore_loop sha256 (service :: rest) results st =
    (fst call, inr (<[service := mkRestoreResult true m]> results)).
Proof.
  intros Hdata Hmode Hlt call Hcall. subst call. simpl.
  unfold mbind, M_bind.
  rewrite (restore_iteration_unfold st service results data true Hdata Hmode).
  destruct (restore_service _ _ _ _ _) as [st' r]. simpl in *.
  by rewrite Hcall, Hlt.
Qed.

(** *** A service without sampled demand *)

(** A positive number of the registry that has a [float]: a positive
    [int] that [float()] converts, or a positive [float] of the binary64
    range. *)
Definition positive_number (T : PyNum) : Prop :=
  match T with
  | PyInt t => (0 < t)%Z ∧ ∃ x, Py.float_of_int t = inr x
  | PyFloat s m e => s = false ∧ m ≠ 0%N ∧ (-1074 ≤ e)%Z
  end.

(** [1 / 0.1] is 10.0. *)
Lemma floor_factor : Py.int_div_float 1 Py.float_0_1 = inr float_10.
Proof. reflexivity. Qed.

Lemma zero_ratio T :
  positive_number T →
  Py.truediv 0 T = inr (S754_zero false).
Proof.
  destruct T as [t|s m e]; simpl.
  - intros [Ht _]. by destruct t.
  - intros (-> & Hm & _). by destruct m.
Qed.

Lemma as_float_positive T :
  positive_number T →
  ∃ m e, Py.as_float T = inr (S754_finite false m e) ∧
         (emin Py.prec Py.emax ≤ e)%Z.
Proof.
  destruct T as [t|s m e]; simpl.
  - intros [Ht [x Hx]].
    destruct (float_of_int_positive t x Ht Hx) as (m & e & -> & He).
    by exists m, e.
  - intros (-> & Hm & He). destruct m as [|p]; [done|].
    by exists p, e.
Qed.

Lemma zero_lt_positive_float m e :
  Py.int_lt_float 0 (S754_finite false m e) = true.
Proof.
  destruct e as [|p|p]; simpl; apply Z.ltb_lt; [lia| |lia].
  apply Z.mul_pos_pos; [lia|]. by apply Z.pow_pos_nonneg.
Qed.

Lemma restore_mode_positive T :
  positive_number T → restore_mode 0 T = inr true.
Proof.
  intros HT. destruct (as_float_positive T HT) as (m & e & Hfloat & He).
  unfold restore_mode, Py.mul. rewrite Hfloat.
  destruct (SFmul_positive m e 6755399441055744 (-52) He)
    as [(m' & e' & Hmul) | Hmul]; [done | done | |];
    unfold Py.float_1_5; rewrite Hmul; [|done].
  by rewrite zero_lt_positive_float.
Qed.

Lemma lt_positive T : positive_number T → Py.lt 0 T = true.
Proof.
  destruct T as [t|s m e]; simpl.
  - intros [Ht _]. by apply Z.ltb_lt.
  - intros (-> & Hm & _). destruct m as [|p]; [done|].
    apply zero_lt_positive_float.
Qed.

(** The property of the specification: a service of the registry that the
    demand sample does not mention, and whose threshold is positive, is
    restored in partial mode. *)
Definition absent_demand_restores_partially (st : State) (service : string)
    : Prop :=
  ∀ data results,
    assoc service (critical_services st) = Some data →
    current_demands st !! service = None →
    (0 < num_value (demand_threshold data))%Q →
    stdout (fst (restore_iteration sha256 service results st)) =
      (stdout st ++ [LogRestoreStart service true])%list.

(** C10, as the code has it. A service of the registry that the demand
    sample does not mention is given the demand 0.  When its threshold is
    positive and has a [float] (an [int] threshold is converted to
    [float] to be multiplied by 1.5), its demand ratio is 0.0 and is
    floored to 0.1; its priority value is its static priority multiplied
    by 10.0 in binary64, an [int] priority being converted first
    ([OverflowError] when it is too large), which for an integer priority
    of magnitude below 2^49 is exactly 10 times that priority; its
    restoration is run in partial mode; and when that restoration succeeds
    the loop stops there, so that none of the services that follow it in
    the priority order is processed in that run. *)
Theorem absent_demand_counts_as_zero st service data rest results :
  assoc service (critical_services st) = Some data →
  demand_sample !! service = None →
  current_demands st = demand_sample →
  positive_number (demand_threshold data) →
  let f := backup_file_name service (clock_ymd st) in
  (∃ ratio,
     Py.truediv (default 0%Z (demand_sample !! service))
       (demand_threshold data) = inr ratio ∧
     Py.max Py.float_0_1 ratio = Py.float_0_1) ∧
  service_priority demand_sample service data st =
    (st, match Py.mul (priority data) float_10 with
         | inl e => inl e
         | inr p => inr (p, service)
         end) ∧
  (∀ p : Z, priority data = PyInt p → (Z.abs p < 2 ^ 49)%Z →
     Py.mul (priority data) float_10 = Py.float_of_int (10 * p)) ∧
  fst (restore_iteration sha256 service results st) =
    fst (restore_service sha256 service f true st) ∧
  ∀ m, snd (restore_service sha256 service f true st) = inr (true, m) →
       restore_loop sha256 (service :: rest) results st =
         (fst (restore_service sha256 service f true st),
          inr (<[service := mkRestoreResult true m]> results)).
Proof.
  intros Hdata Habsent Hdem HT f.
  pose proof (zero_ratio _ HT) as Hratio.
  assert (Hzero : sampled_demand st service = 0%Z).
  { unfold sampled_demand. by rewrite Hdem, Habsent. }
  assert (Hmode : restore_mode (sampled_demand st service)
                    (demand_threshold data) = inr true).
  { rewrite Hzero. by apply restore_mode_positive. }
  assert (Hbelow : Py.lt (sampled_demand st service)
                     (demand_threshold data) = true).
  { rewrite Hzero. by apply lt_positive. }
  rewrite Habsent. simpl default. split; [|split; [|split; [|split]]].
  - by exists (S754_zero false).
  - unfold service_priority. rewrite Habsent. simpl default.
    unfold_monad. rewrite Hratio.
    change (Py.max Py.float_0_1 (S754_zero false)) with Py.float_0_1.
    rewrite floor_factor.
    by destruct (Py.mul (priority data) float_10).
  - intros p -> Hp. by apply times_ten_exact.
  - rewrite (restore_iteration_unfold st service results data true Hdata Hmode).
    fold f. destruct (restore_service _ _ _ _ _) as [st' [e|[ok msg]]]; done.
  - intros m Hm.
    by apply (restore_loop_stops st service rest results data m).
Qed.

(** *** The built-in registry under the simulated demand *)

Lemma prioritize_services_default st :
  critical_services st = default_critical_services →
  prioritize_services st =
    (set_current_demands demand_sample st,
     inr ["servicio_db"; "servicio_api"; "servicio_web"]).
Proof.
  intros Hcs. unfold prioritize_services, evaluate_demands.
  unfold_monad. simpl. rewrite Hcs. reflexivity.
Qed.

(** The state in which the loop of [orchestrate_restorations] starts. *)
Definition loop_entry (st : State) : State :=
  set_stdout
    (stdout st ++ [LogOrchestrationStart] ++
       [LogPriorityOrder ["servicio_db"; "servicio_api"; "servicio_web"]])
    (set_current_demands demand_sample st).

Lemma orchestrate_default_unfold st :
  critical_services st = default_critical_services →
  orchestrate_restorations sha256 st =
    match restore_loop sha256
            ["servicio_db"; "servicio_api"; "servicio_web"] ∅
            (loop_entry st) with
    | (st', inl e) => (st', inl e)
    | (st', inr results) =>
        (set_stdout (stdout st' ++ [LogOrchestrationDone]) st', inr results)
    end.
Proof.
  intros Hcs. unfold orchestrate_restorations.
  unfold mbind at 1 2, M_bind at 1 2. unfold print at 1, modify at 1.
  rewrite prioritize_services_default by done.
  unfold_monad. cbn -[restore_loop]. rewrite <- app_assoc.
  destruct (restore_loop _ _ _ _) as [st' [e|results]]; done.
Qed.

(** An iteration of the loop on a service of the built-in registry. *)
Lemma restore_iteration_default st service data results partial stop :
  critical_services st = default_critical_services →
  current_demands st = demand_sample →
  assoc service default_critical_services = Some data →
  restore_mode (default 0%Z (demand_sample !! service))
    (demand_threshold data) = inr partial →
  Py.lt (default 0%Z (demand_sample !! service))
    (demand_threshold data) = stop →
  restore_iteration sha256 service results st =
    match restore_service sha256 service
            (backup_file_name service (clock_ymd st)) partial st with
    | (st', inl e) => (st', inl e)
    | (st', inr (ok, msg)) =>
        (st', inr (<[service := mkRestoreResult ok msg]> results, ok && stop))
    end.
Proof.
  intros Hcs Hdem Hdata Hmode <-.
  rewrite (restore_iteration_unfold st service results data partial).
  - unfold sampled_demand. by rewrite Hdem.
  - by rewrite Hcs.
  - unfold sampled_demand. by rewrite Hdem.
Qed.

(** C1. With the built-in registry and the simulated demand sample, a run
    of [orchestrate_restorations] in which every attempted restoration
    succeeds computes the order [servicio_db, servicio_api, servicio_web],
    restores [servicio_db] (in full mode; its demand 150 is not below its
    threshold 100, so the run goes on), restores [servicio_api] (in partial
    mode) and stops there, as the demand 65 is below the threshold 80:
    [servicio_web] has no entry in the results of the run. *)
Theorem default_scenario_stops_after_api st results :
  critical_services st = default_critical_services →
  snd (orchestrate_restorations sha256 st) = inr results →
  (∀ service result,
     results !! service = Some result → success result = true) →
  snd (prioritize_services st) =
    inr ["servicio_db"; "servicio_api"; "servicio_web"] ∧
  (∃ m1 m2,
     results = <["servicio_api" := mkRestoreResult true m2]>
                 (<["servicio_db" := mkRestoreResult true m1]> ∅)) ∧
  results !! "servicio_web" = None ∧
  stdout (fst (orchestrate_restorations sha256 st)) =
    (stdout st ++
       [ LogOrchestrationStart;
         LogPriorityOrder ["servicio_db"; "servicio_api"; "servicio_web"];
         LogRestoreStart "servicio_db" false;
         LogRestoreStart "servicio_api" true;
         LogOrchestrationDone ])%list.
Proof.
  intros Hcs Hres Hall.
  rewrite prioritize_services_default by done. split; [done|].
  rewrite orchestrate_default_unfold in * by done.
  assert (Hcs0 : critical_services (loop_entry st) =
                   default_critical_services) by done.
  assert (Hdem0 : current_demands (loop_entry st) = demand_sample) by done.
  assert (Hout0 : stdout (loop_entry st) =
                    (stdout st ++ [LogOrchestrationStart] ++
                       [LogPriorityOrder
                          ["servicio_db"; "servicio_api"; "servicio_web"]])%list)
    by done.
  generalize dependent (loop_entry st). intros s0 Hres Hcs0 Hdem0 Hout0.
  simpl restore_loop in *. unfold mbind, M_bind in *.
  (* servicio_db *)
  rewrite (restore_iteration_default s0 "servicio_db"
             (mkServiceData (PyInt 1) (PyInt 100)) ∅ false false) in * by done.
  pose proof (restore_service_frame s0 "servicio_db"
                (backup_file_name "servicio_db" (clock_ymd s0)) false)
    as [(Hcs1 & _ & _ & _ & Hdem1) Hout1].
  destruct (restore_service _ _ _ _ s0) as [s1 [e|[ok1 m1]]];
    simpl in *; [done|].
  rewrite andb_false_r in *.
  (* servicio_api *)
  rewrite (restore_iteration_default s1 "servicio_api"
             (mkServiceData (PyInt 2) (PyInt 80)) _ true true) in *
    by (done || by rewrite Hcs1 || by rewrite Hdem1).
  pose proof (restore_service_frame s1 "servicio_api"
                (backup_file_name "servicio_api" (clock_ymd s1)) true)
    as [(Hcs2 & _ & _ & _ & Hdem2) Hout2].
  destruct (restore_service _ _ _ _ s1) as [s2 [e|[ok2 m2]]];
    simpl in *; [done|].
  rewrite andb_true_r in *. destruct ok2; simpl in *.
  - (* the run stops after servicio_api *)
    injection Hres as <-.
    assert (ok1 = true) as ->.
    { apply (Hall "servicio_db" (mkRestoreResult ok1 m1)).
      by rewrite lookup_insert_ne, lookup_insert_eq. }
    split; [by exists m1, m2|]. split.
    + by rewrite !lookup_insert_ne, lookup_empty.
    + rewrite Hout2, Hout1, Hout0. by rewrite <- !app_assoc.
  - (* a failed servicio_api would be among the results *)
    exfalso.
    rewrite (restore_iteration_default s2 "servicio_web"
               (mkServiceData (PyInt 3) (PyInt 50)) _ true true) in *
      by (done || by rewrite Hcs2, Hcs1 || by rewrite Hdem2, Hdem1).
    destruct (restore_service _ _ _ _ s2) as [s3 [e|[ok3 m3]]];
      simpl in *; [done|].
    assert (Hapi : results !! "servicio_api" =
                     Some (mkRestoreResult false m2)).
    { destruct (ok3 && true); simpl in Hres; injection Hres as <-;
        by rewrite lookup_insert_ne, lookup_insert_eq. }
    by apply Hall in Hapi.
Qed.

End Orchestration.

Section Threads.

Variable sha256 : list byte → string.

(** The system before any trigger. *)
Definition idle (st : State) : System := mkSystem st [] [].

(** A thread that is inside [orchestrate_restorations]. *)
Definition in_run (thread : Trigger * RunPoint) : bool :=
  match snd thread with
  | AtCall => false
  | AtEntry | InLoop _ _ => true
  end.

(** The property of the specification: however the triggers and the steps
    of the threads interleave, at most one run is in progress. *)
Definition runs_are_exclusive (st : State) : Prop :=
  ∀ events sys,
    run_events sha256 (idle st) events = Some sys →
    (length (filter (λ thread, in_run thread = true) (active sys)) ≤ 1)%nat.

Lemma run_events_app sys events1 events2 :
  run_events sha256 sys (events1 ++ events2) =
    run_events sha256 sys events1 ≫= λ sys', run_events sha256 sys' events2.
Proof.
  revert sys. induction events1 as [|ev events1 IH]; intros sys; [done|].
  simpl. destruct (system_step sha256 sys ev); [apply IH | done].
Qed.

(** What is left of the method of trigger [t] from a point on. *)
Definition rest_of_method (t : Trigger) (point : RunPoint)
    : M (option (gmap string RestoreResult)) :=
  match point with
  | AtCall => trigger_method sha256 t
  | AtEntry =>
      results ← orchestrate_restorations sha256;
      mret (returned t results)
  | InLoop pending results =>
      final ← restore_loop sha256 pending results;
      print LogOrchestrationDone ;;
      mret (returned t final)
  end.

(** A step of the thread that arrived last. *)
Lemma system_step_last st others done t point :
  system_step sha256 (mkSystem st (others ++ [(t, point)]) done)
    (Advances (length others)) =
    match thread_step sha256 t point st with
    | (st', inl e) => Some (mkSystem st' others (done ++ [(t, inl e)]))
    | (st', inr (inl point')) =>
        Some (mkSystem st' (others ++ [(t, point')]) done)
    | (st', inr (inr value)) =>
        Some (mkSystem st' others (done ++ [(t, inr value)]))
    end.
Proof.
  unfold system_step. simpl.
  rewrite list_lookup_middle by done.
  destruct (thread_step sha256 t point st) as [st' [e|[point'|value]]].
  - by rewrite delete_middle, app_nil_r.
  - rewrite insert_app_r_alt, Nat.sub_diag by done. done.
  - by rewrite delete_middle, app_nil_r.
Qed.

Lemma orchestrate_unfold st :
  orchestrate_restorations sha256 st =
    match prioritize_services
            (set_stdout (stdout st ++ [LogOrchestrationStart]) st) with
    | (st1, inl e) => (st1, inl e)
    | (st1, inr prioritized) =>
        (restore_loop sha256 prioritized ∅ ≫= λ r,
         print LogOrchestrationDone ;; mret r)
          (set_stdout (stdout st1 ++ [LogPriorityOrder prioritized]) st1)
    end.
Proof.
  unfold orchestrate_restorations.
  unfold mbind at 1 2, M_bind at 1 2. unfold print at 1, modify at 1.
  by destruct (prioritize_services _) as [st1 [e|prioritized]].
Qed.

Lemma thread_step_entry t st :
  thread_step sha256 t AtEntry st =
    match prioritize_services
            (set_stdout (stdout st ++ [LogOrchestrationStart]) st) with
    | (st1, inl e) => (st1, inl e)
    | (st1, inr prioritized) =>
        (set_stdout (stdout st1 ++ [LogPriorityOrder prioritized]) st1,
         inr (inl (InLoop prioritized ∅)))
    end.
Proof.
  unfold thread_step.
  unfold mbind at 1 2, M_bind at 1 2. unfold print at 1, modify at 1.
  by destruct (prioritize_services _) as [st1 [e|prioritized]].
Qed.

Lemma thread_step_iteration t service rest results st :
  thread_step sha256 t (InLoop (service :: rest) results) st =
    match restore_iteration sha256 service results st with
    | (st1, inl e) => (st1, inl e)
    | (st1, inr (results', stop)) =>
        (st1, inr (inl (InLoop (if stop : bool then [] else rest) results')))
    end.
Proof.
  unfold thread_step. unfold mbind, M_bind.
  by destruct (restore_iteration _ _ _ _) as [st1 [e|[results' stop]]].
Qed.

Lemma thread_step_return t results st :
  thread_step sha256 t (InLoop [] results) st =
    (set_stdout (stdout st ++ [LogOrchestrationDone]) st,
     inr (inr (returned t results))).
Proof. done. Qed.

Lemma thread_step_call_manual st :
  thread_step sha256 ManualTrigger AtCall st =
    (set_stdout (stdout st ++ [LogManualRestoration]) st, inr (inl AtEntry)).
Proof. done. Qed.

Lemma thread_step_call_tick st :
  thread_step sha256 MonitoringTick AtCall st =
    match full_validation_cycle sha256 st with
    | (st1, inl e) => (st1, inl e)
    | (st1, inr _) => (st1, inr (inl AtEntry))
    end.
Proof.
  unfold thread_step, detect_incident. unfold mbind at 1, M_bind at 1.
  by destruct (full_validation_cycle sha256 st) as [st1 [e|status]].
Qed.

(** The stretches of a thread in the loop, run one after the other while
    the other threads wait, are the rest of the loop and the return. *)
Lemma thread_finishes_loop others done t pending results st :
  ∃ n,
    run_events sha256
      (mkSystem st (others ++ [(t, InLoop pending results)]) done)
      (replicate n (Advances (length others))) =
    Some (mkSystem
            (fst (rest_of_method t (InLoop pending results) st))
            others
            (done ++ [(t, snd (rest_of_method t (InLoop pending results)
                                 st))])).
Proof.
  revert results st.
  induction pending as [|service rest IH]; intros results st.
  - exists 1. cbn [run_events replicate].
    by rewrite system_step_last, thread_step_return.
  - unfold rest_of_method. simpl restore_loop. unfold mbind, M_bind.
    destruct (restore_iteration sha256 service results st)
      as [st1 [e|[results' stop]]] eqn:Hit.
    + exists 1. cbn [run_events replicate].
      by rewrite system_step_last, thread_step_iteration, Hit.
    + destruct stop.
      * exists 2. cbn [run_events replicate].
        rewrite system_step_last, thread_step_iteration, Hit.
        cbv beta iota.
        by rewrite system_step_last, thread_step_return.
      * destruct (IH results' st1) as [n Hn]. exists (S n).
        cbn [run_events replicate].
        rewrite system_step_last, thread_step_iteration, Hit.
        cbv beta iota. apply Hn.
Qed.

(** The same from the entry of [orchestrate_restorations]. *)
Lemma thread_finishes_run others done t st :
  ∃ n,
    run_events sha256 (mkSystem st (others ++ [(t, AtEntry)]) done)
      (replicate n (Advances (length others))) =
    Some (mkSystem
            (fst (rest_of_method t AtEntry st))
            others
            (done ++ [(t, snd (rest_of_method t AtEntry st))])).
Proof.
  unfold rest_of_method. unfold mbind, M_bind.
  rewrite orchestrate_unfold.
  destruct (prioritize_services _) as [st1 [e|prioritized]] eqn:Hp.
  - exists 1. cbn [run_events replicate].
    by rewrite system_step_last, thread_step_entry, Hp.
  - destruct (thread_finishes_loop others done t prioritized ∅
                (set_stdout (stdout st1 ++ [LogPriorityOrder prioritized])
                   st1))
      as [n Hn].
    exists (S n). cbn [run_events replicate].
    rewrite system_step_last, thread_step_entry, Hp. cbv beta iota.
    rewrite Hn.
    unfold rest_of_method. unfold mbind, M_bind.
    destruct (restore_loop sha256 prioritized ∅ _) as [st2 [e|final]]; done.
Qed.

Lemma rest_of_method_entry t st :
  rest_of_method t AtEntry st =
    match orchestrate_restorations sha256 st with
    | (st2, inl e) => (st2, inl e)
    | (st2, inr results) => (st2, inr (returned t results))
    end.
Proof.
  unfold rest_of_method. unfold mbind, M_bind.
  by destruct (orchestrate_restorations sha256 st) as [st2 [e|results]].
Qed.

Lemma trigger_method_manual st :
  trigger_method sha256 ManualTrigger st =
    match orchestrate_restorations sha256
            (set_stdout (stdout st ++ [LogManualRestoration]) st) with
    | (st2, inl e) => (st2, inl e)
    | (st2, inr results) => (st2, inr (Some results))
    end.
Proof.
  unfold trigger_method, manual_restoration.
  unfold mbind, M_bind, print, modify.
  by destruct (orchestrate_restorations sha256 _) as [st2 [e|results]].
Qed.

Lemma trigger_method_tick st :
  trigger_method sha256 MonitoringTick st =
    match full_validation_cycle sha256 st with
    | (st1, inl e) => (st1, inl e)
    | (st1, inr _) =>
        match orchestrate_restorations sha256 st1 with
        | (st2, inl e) => (st2, inl e)
        | (st2, inr _) => (st2, inr None)
        end
    end.
Proof.
  unfold trigger_method, monitoring_tick, detect_incident.
  unfold mbind, M_bind.
  destruct (full_validation_cycle sha256 st) as [st1 [e|status]]; [done|].
  unfold mret, M_ret.
  by destruct (orchestrate_restorations sha256 st1) as [st2 [e|results]].
Qed.

(** The same from the call of the method. *)
Lemma thread_finishes_method others done t st :
  ∃ n,
    run_events sha256 (mkSystem st (others ++ [(t, AtCall)]) done)
      (replicate n (Advances (length others))) =
    Some (mkSystem
            (fst (trigger_method sha256 t st))
            others
            (done ++ [(t, snd (trigger_method sha256 t st))])).
Proof.
  destruct t.
  - (* manual_restoration *)
    rewrite trigger_method_manual.
    set (st1 := set_stdout (stdout st ++ [LogManualRestoration]) st).
    destruct (thread_finishes_run others done ManualTrigger st1) as [n Hn].
    exists (S n). cbn [run_events replicate].
    rewrite system_step_last, thread_step_call_manual. cbv beta iota.
    fold st1. rewrite Hn, rest_of_method_entry.
    destruct (orchestrate_restorations sha256 st1) as [st2 [e|results]]; done.
  - (* a turn of monitoring_loop *)
    rewrite trigger_method_tick.
    destruct (full_validation_cycle sha256 st) as [st1 [e|status]] eqn:Hcycle.
    + exists 1. cbn [run_events replicate].
      by rewrite system_step_last, thread_step_call_tick, Hcycle.
    + destruct (thread_finishes_run others done MonitoringTick st1)
        as [n Hn].
      exists (S n). cbn [run_events replicate].
      rewrite system_step_last, thread_step_call_tick, Hcycle.
      cbv beta iota. rewrite Hn, rest_of_method_entry.
      destruct (orchestrate_restorations sha256 st1) as [st2 [e|results]];
        done.
Qed.

(** C8, as the code has it. Nothing guards [orchestrate_restorations]: the
    method of a manual trigger or of a monitoring tick that arrives while
    other runs are in progress starts at once and runs to its end, exactly
    as [manual_restoration] or the turn of [monitoring_loop] does on the
    shared state, while the runs in progress are still in progress: the
    trigger is neither rejected nor queued, and its run is concurrent with
    the others. *)
Theorem trigger_always_starts_a_run sys t :
  ∃ n,
    run_events sha256 sys
      (Arrives t :: replicate n (Advances (length (active sys)))) =
    Some (mkSystem
            (fst (trigger_method sha256 t (shared sys)))
            (active sys)
            (finished sys ++
               [(t, snd (trigger_method sha256 t (shared sys)))])).
Proof.
  destruct (thread_finishes_method (active sys) (finished sys) t (shared sys))
    as [n Hn].
  exists n. cbn [run_events replicate]. exact Hn.
Qed.

End Threads.

(** * The properties on concrete states *)

Definition db_backup : string := "servicio_db_backup_20250101.bak".

(** The fresh installation, after the backup of [servicio_db] was
    registered with another content. *)
Definition stale_ledger : gmap string string :=
  {[ db_backup := sample_digest (bytes_of "db-data-before") ]}.

Definition tampered_state : State :=
  set_hash_db (DbDict stale_ledger) fresh_state.

Lemma verify_mismatch_keeps_ledger_witness :
  verify_backup sample_digest db_backup tampered_state =
    (tampered_state, inr (false, "Hash no coincide")) ∧
  known_hashes_of
    (hash_db (fst (verify_backup sample_digest db_backup tampered_state)))
    !! db_backup = Some (sample_digest (bytes_of "db-data-before")).
Proof.
  apply (verify_mismatch_keeps_ledger sample_digest tampered_state db_backup
           (bytes_of "db-data") stale_ledger
           (sample_digest (bytes_of "db-data-before")));
    [reflexivity | reflexivity | reflexivity | discriminate].
Defined.

Lemma verify_register_then_verified_witness :
  snd (verify_backup sample_digest db_backup fresh_state) =
    inr (true, "Nuevo backup registrado") ∧
  known_hashes_of
    (hash_db (fst (verify_backup sample_digest db_backup fresh_state)))
    !! db_backup = Some (sample_digest (bytes_of "db-data")) ∧
  ∀ n,
    verify_backup sample_digest db_backup
      (verify_again sample_digest n db_backup
         (fst (verify_backup sample_digest db_backup fresh_state))) =
    (fst (verify_backup sample_digest db_backup fresh_state),
     inr (true, "Integridad verificada")).
Proof.
  apply (verify_register_then_verified sample_digest fresh_state db_backup
           (bytes_of "db-data"));
    [reflexivity | discriminate | reflexivity].
Defined.

Lemma verify_missing_ledger_registers_witness :
  verify_backup sample_digest db_backup fresh_state =
    (set_hash_db
       (DbDict {[ db_backup := sample_digest (bytes_of "db-data") ]})
       fresh_state,
     inr (true, "Nuevo backup registrado")).
Proof.
  apply (verify_missing_ledger_registers sample_digest fresh_state db_backup
           (bytes_of "db-data"));
    reflexivity.
Defined.

Lemma restore_invalid_backup_writes_nothing_witness :
  snd (restore_service sample_digest "servicio_db" db_backup false
         tampered_state) = inr (false, "Backup inválido") ∧
  production
    (fst (restore_service sample_digest "servicio_db" db_backup false
            tampered_state)) = production tampered_state.
Proof.
  apply (restore_invalid_backup_writes_nothing sample_digest tampered_state
           "servicio_db" db_backup false).
  right. reflexivity.
Defined.

(** The backup directory holds a sub-directory between two backups, and
    the status table has an entry of an earlier cycle for the first
    backup. *)
Definition api_backup : string := "servicio_api_backup_20250101.bak".
Definition web_backup : string := "servicio_web_backup_20250101.bak".

Definition directory_state : State :=
  {| critical_services := load_critical_services None;
     backups :=
       [ (api_backup, Readable (bytes_of "api-data"));
         ("archive", Unreadable "Is a directory");
         (web_backup, Readable (bytes_of "web-data")) ];
     hash_db := DbAbsent;
     production := ∅;
     copy_faults := ∅;
     clock_ymd := "20250101";
     clock_iso := "2025-01-01T00:00:00";
     integrity_status :=
       {[ api_backup :=
            mkIntegrityEntry false "Hash no coincide" "2024-12-31T00:00:00" ]};
     current_demands := ∅;
     stdout := [] |}.

(** C3 fails on the code: with a sub-directory in the backup directory the
    cycle does not return a status snapshot, it raises. *)
Lemma cycle_does_not_isolate_failures :
  ¬ cycle_isolates_failures sample_digest directory_state.
Proof.
  intros (status & Hreturn & _). vm_compute in Hreturn. discriminate.
Qed.

Lemma validation_cycle_aborts_on_read_failure_witness :
  snd (full_validation_cycle sample_digest directory_state) =
    inl (OSError "Is a directory") ∧
  (∀ name content,
     (name, Readable content) ∈ [(api_backup, Readable (bytes_of "api-data"))] →
     integrity_status
       (fst (full_validation_cycle sample_digest directory_state)) !! name =
     Some (mkIntegrityEntry
             (expected_outcome
                (known_hashes_of (hash_db directory_state) !! name)
                (sample_digest content)).1
             (expected_outcome
                (known_hashes_of (hash_db directory_state) !! name)
                (sample_digest content)).2
             (clock_iso directory_state))) ∧
  (∀ name, name ∉ [api_backup] →
     integrity_status
       (fst (full_validation_cycle sample_digest directory_state)) !! name =
     integrity_status directory_state !! name).
Proof.
  apply (validation_cycle_aborts_on_read_failure sample_digest directory_state
           [(api_backup, Readable (bytes_of "api-data"))]
           [(web_backup, Readable (bytes_of "web-data"))]
           "archive" "Is a directory").
  - reflexivity.
  - compute_done.
  - intros name node Hin. apply list_elem_of_singleton in Hin.
    injection Hin as -> ->. by eexists.
  - discriminate.
Defined.

(** The disk fills up three bytes into a restoration of [servicio_db],
    whose target holds an earlier full restoration. *)
Definition full_disk_state : State :=
  {| critical_services := load_critical_services None;
     backups := [ (db_backup, Readable (bytes_of "db-data")) ];
     hash_db := DbAbsent;
     production :=
       {[ "servicio_db" := {[ "full_restore" := bytes_of "previous" ]} ]};
     copy_faults := {[ "servicio_db" := (3, "No space left on device") ]};
     clock_ymd := "20250101";
     clock_iso := "2025-01-01T00:00:00";
     integrity_status := ∅;
     current_demands := ∅;
     stdout := [] |}.

(** C4 fails on the code: after the failed copy the visible target holds
    three bytes of the artifact, neither its old content nor the new one. *)
Lemma restore_is_not_all_or_nothing :
  ¬ restore_is_all_or_nothing sample_digest full_disk_state
      "servicio_db" db_backup false.
Proof.
  intros Hatomic.
  specialize (Hatomic (bytes_of "db-data") "Nuevo backup registrado"
                eq_refl eq_refl).
  vm_compute in Hatomic. by destruct Hatomic.
Qed.

Lemma restore_writes_target_in_place_witness :
  snd (restore_service sample_digest "servicio_db" db_backup false
         full_disk_state) = inr (false, "No space left on device") ∧
  target_file
    (fst (restore_service sample_digest "servicio_db" db_backup false
            full_disk_state)) "servicio_db" "full_restore" =
    Some (bytes_of "db-") ∧
  ∀ service' name',
    (service', name') ≠ ("servicio_db", "full_restore") →
    target_file
      (fst (restore_service sample_digest "servicio_db" db_backup false
              full_disk_state)) service' name' =
    target_file full_disk_state service' name'.
Proof.
  apply (restore_writes_target_in_place sample_digest full_disk_state
           "servicio_db" db_backup false (bytes_of "db-data")
           "Nuevo backup registrado");
    reflexivity.
Defined.

(** The fresh installation with the registry file
    [{servicio_db: (1, 100), servicio_api: (2, threshold)}], once the
    demand has been sampled. *)
Definition api_threshold_state (threshold : PyNum) : State :=
  {| critical_services :=
       load_critical_services
         (Some [ ("servicio_db", mkServiceData (PyInt 1) (PyInt 100));
                 ("servicio_api", mkServiceData (PyInt 2) threshold) ]);
     backups := backups fresh_state;
     hash_db := DbAbsent;
     production := ∅;
     copy_faults := ∅;
     clock_ymd := "20250101";
     clock_iso := "2025-01-01T00:00:00";
     integrity_status := ∅;
     current_demands := demand_sample;
     stdout := [] |}.

(** C6 fails on the code: when the threshold of [servicio_api] is the
    integer 10^400, its demand 65 is below 1.5 times the threshold, but
    no mode is selected: the product [threshold * 1.5] raises
    [OverflowError] and the service is not restored. *)
Lemma mode_does_not_follow_threshold :
  ¬ mode_follows_threshold sample_digest
      (api_threshold_state (PyInt (10 ^ 400))) "servicio_api".
Proof.
  intros Hmode.
  destruct (Hmode (mkServiceData (PyInt 2) (PyInt (10 ^ 400))) ∅ eq_refl)
    as (partial & _ & Hout).
  vm_compute in Hout. discriminate.
Qed.

(** The [float] 43.333333333333336, which is 6098624495397547 / 2^47. *)
Definition threshold_43_3 : PyNum := PyFloat false 6098624495397547 (-47).

(** The rule of the specification also fails by rounding: the demand 65 of
    [servicio_api] is below 1.5 times the threshold 43.333333333333336
    (which is slightly more than 65), but the product computed by the code
    is rounded to 65.0, and the restoration runs in full mode. *)
Lemma mode_does_not_follow_rounded_threshold :
  (inject_Z 65 < 1.5 * num_value threshold_43_3)%Q ∧
  restore_mode 65 threshold_43_3 = inr false ∧
  ¬ mode_follows_threshold sample_digest
      (api_threshold_state threshold_43_3) "servicio_api".
Proof.
  assert (Hbelow : (inject_Z 65 < 1.5 * num_value threshold_43_3)%Q)
    by (vm_compute; reflexivity).
  split; [done|]. split; [reflexivity|].
  intros Hmode.
  destruct (Hmode (mkServiceData (PyInt 2) threshold_43_3) ∅ eq_refl)
    as (partial & Hiff & Hout).
  vm_compute in Hout. injection Hout as <-.
  apply Hiff in Hbelow. discriminate.
Qed.

(** The fresh installation once the demand has been sampled. *)
Definition sampled_state : State :=
  set_current_demands demand_sample fresh_state.

Lemma restore_mode_boundary_witness :
  (fst (restore_iteration sample_digest "servicio_db" ∅ sampled_state) =
     fst (restore_service sample_digest "servicio_db" db_backup false
            sampled_state) ∧
   stdout (fst (restore_iteration sample_digest "servicio_db" ∅
                  sampled_state)) =
     (stdout sampled_state ++ [LogRestoreStart "servicio_db" false])%list) ∧
  ∀ t : Z, PyInt 100 = PyInt t → (Z.abs t < 2 ^ 51)%Z →
    restore_mode 150 (PyInt 100) = inr (2 * 150 <? 3 * t)%Z ∧
    ∀ demand : Z,
      (0 < t)%Z →
      ((100 * demand = 149 * t)%Z →
       restore_mode demand (PyInt 100) = inr true) ∧
      ((2 * demand = 3 * t)%Z →
       restore_mode demand (PyInt 100) = inr false).
Proof.
  apply (restore_mode_boundary sample_digest sampled_state "servicio_db"
           (mkServiceData (PyInt 1) (PyInt 100)) ∅).
  reflexivity.
Defined.

(** A registry with a fourth service, of which the demand sample knows
    nothing. *)
Definition cache_backup : string := "servicio_cache_backup_20250101.bak".

Definition extended_state (cache : ServiceData) : State :=
  {| critical_services :=
       load_critical_services
         (Some (default_critical_services ++
                  [("servicio_cache", cache)])%list);
     backups :=
       [ (db_backup, Readable (bytes_of "db-data"));
         (cache_backup, Readable (bytes_of "cache-data")) ];
     hash_db := DbAbsent;
     production := ∅;
     copy_faults := ∅;
     clock_ymd := "20250101";
     clock_iso := "2025-01-01T00:00:00";
     integrity_status := ∅;
     current_demands := demand_sample;
     stdout := [] |}.

(** The threshold of the fourth service is the integer 10^400. *)
Definition huge_threshold : ServiceData :=
  mkServiceData (PyInt 4) (PyInt (10 ^ 400)).

(** C10 fails on the code: with the positive threshold 10^400 the service
    that has no sampled demand is not restored in partial mode, its
    iteration raises [OverflowError] before the restoration starts. *)
Lemma absent_demand_can_overflow :
  ¬ absent_demand_restores_partially sample_digest
      (extended_state huge_threshold) "servicio_cache".
Proof.
  intros Hpartial.
  specialize (Hpartial huge_threshold ∅ eq_refl eq_refl).
  assert (Hpositive : (0 < num_value (demand_threshold huge_threshold))%Q)
    by (vm_compute; reflexivity).
  apply Hpartial in Hpositive. vm_compute in Hpositive. discriminate.
Qed.

Lemma absent_demand_counts_as_zero_witness :
  (∃ ratio,
     Py.truediv (default 0%Z (demand_sample !! "servicio_cache")) (PyInt 20) =
       inr ratio ∧
     Py.max Py.float_0_1 ratio = Py.float_0_1) ∧
  service_priority demand_sample "servicio_cache"
    (mkServiceData (PyInt 4) (PyInt 20))
    (extended_state (mkServiceData (PyInt 4) (PyInt 20))) =
    (extended_state (mkServiceData (PyInt 4) (PyInt 20)),
     inr (S754_finite false 5629499534213120 (-47), "servicio_cache")) ∧
  (∀ p : Z, PyInt 4 = PyInt p → (Z.abs p < 2 ^ 49)%Z →
     Py.mul (PyInt 4) float_10 = Py.float_of_int (10 * p)) ∧
  fst (restore_iteration sample_digest "servicio_cache" ∅
         (extended_state (mkServiceData (PyInt 4) (PyInt 20)))) =
    fst (restore_service sample_digest "servicio_cache" cache_backup true
           (extended_state (mkServiceData (PyInt 4) (PyInt 20)))) ∧
  ∀ m,
    snd (restore_service sample_digest "servicio_cache" cache_backup true
           (extended_state (mkServiceData (PyInt 4) (PyInt 20)))) =
      inr (true, m) →
    restore_loop sample_digest ["servicio_cache"; "servicio_web"] ∅
      (extended_state (mkServiceData (PyInt 4) (PyInt 20))) =
      (fst (restore_service sample_digest "servicio_cache" cache_backup true
              (extended_state (mkServiceData (PyInt 4) (PyInt 20)))),
       inr (<["servicio_cache" := mkRestoreResult true m]> ∅)).
Proof.
  apply (absent_demand_counts_as_zero sample_digest
           (extended_state (mkServiceData (PyInt 4) (PyInt 20)))
           "servicio_cache" (mkServiceData (PyInt 4) (PyInt 20))
           ["servicio_web"] ∅);
    [reflexivity | reflexivity | reflexivity |].
  split; [reflexivity|]. eexists. reflexivity.
Defined.

(** The results of a run on the fresh installation. *)
Definition scenario_results : gmap string RestoreResult :=
  <["servicio_api" := mkRestoreResult true "Restauración exitosa"]>
    (<["servicio_db" := mkRestoreResult true "Restauración exitosa"]> ∅).

Lemma default_scenario_stops_after_api_witness :
  snd (prioritize_services fresh_state) =
    inr ["servicio_db"; "servicio_api"; "servicio_web"] ∧
  (∃ m1 m2,
     scenario_results =
       <["servicio_api" := mkRestoreResult true m2]>
         (<["servicio_db" := mkRestoreResult true m1]> ∅)) ∧
  scenario_results !! "servicio_web" = None ∧
  stdout (fst (orchestrate_restorations sample_digest fresh_state)) =
    (stdout fresh_state ++
       [ LogOrchestrationStart;
         LogPriorityOrder ["servicio_db"; "servicio_api"; "servicio_web"];
         LogRestoreStart "servicio_db" false;
         LogRestoreStart "servicio_api" true;
         LogOrchestrationDone ])%list.
Proof.
  apply (default_scenario_stops_after_api sample_digest fresh_state
           scenario_results).
  - reflexivity.
  - vm_compute. reflexivity.
  - intros service result Hin. unfold scenario_results in Hin.
    apply lookup_insert_Some in Hin as [[_ <-]|[_ Hin]]; [reflexivity|].
    apply lookup_insert_Some in Hin as [[_ <-]|[_ Hin]]; [reflexivity|].
    by rewrite lookup_empty in Hin.
Defined.

(** A manual trigger, whose thread goes as far as the loop of
    [orchestrate_restorations]; then a turn of the monitoring loop, whose
    thread validates the backups and enters the loop as well. *)
Definition overlapping_triggers : list Event :=
  [ Arrives ManualTrigger; Advances 0; Advances 0;
    Arrives MonitoringTick; Advances 1; Advances 1 ].

(** C8 fails on the code: after these events two runs are in progress, both
    inside the loop of [orchestrate_restorations]. *)
Lemma runs_are_not_exclusive :
  ¬ runs_are_exclusive sample_digest fresh_state.
Proof.
  intros Hexclusive.
  destruct (run_events sample_digest (idle fresh_state) overlapping_triggers)
    as [sys|] eqn:Hrun.
  - pose proof (Hexclusive _ _ Hrun) as Hle.
    vm_compute in Hrun. injection Hrun as <-. vm_compute in Hle. lia.
  - vm_compute in Hrun. discriminate.
Qed.

(** * Further properties of the agents *)

Section LedgerInvariants.

Variable sha256 : list byte → string.

(** A verification leaves the state as it is, or registers the file. *)
Lemma verify_backup_cases st f :
  fst (verify_backup sha256 f st) = st ∨
  ∃ content,
    assoc f (backups st) = Some (Readable content) ∧
    known_hashes_of (hash_db st) !! f = None ∧
    fst (verify_backup sha256 f st) =
      set_hash_db
        (DbDict (<[f := sha256 content]> (known_hashes_of (hash_db st)))) st.
Proof.
  destruct (assoc f (backups st)) as [[content|err]|] eqn:Hf.
  - destruct (hash_db st) as [|known|] eqn:Hdb.
    + right. exists content.
      rewrite (verify_backup_new sha256 st f content); by rewrite ?Hdb.
    + destruct (known !! f) as [d|] eqn:Hd.
      * left. by rewrite (verify_backup_known sha256 st f content known d).
      * right. exists content.
        rewrite (verify_backup_new sha256 st f content); by rewrite ?Hdb.
    + left. by rewrite (verify_backup_corrupt sha256 st f content).
  - left. by rewrite (verify_backup_unreadable sha256 st f err).
  - left. by rewrite (verify_backup_not_found sha256 st f).
Qed.

(** X1. Trust on first use is never revised: a call of [verify_backup]
    that finds the file in the hash database writes nothing, and a call
    that registers a file rewrites the hash database with the entries it
    has read and the new one.  So, the rewriting of [hash_db.json] being
    taken to succeed, every digest recorded before a call is recorded,
    unchanged, after it. *)
Theorem verify_keeps_recorded_digests st f g d :
  known_hashes_of (hash_db st) !! g = Some d →
  known_hashes_of (hash_db (fst (verify_backup sha256 f st))) !! g = Some d.
Proof.
  intros Hg.
  destruct (verify_backup_cases st f) as [-> | (content & _ & Hnone & ->)];
    [done|].
  simpl. rewrite lookup_insert_ne; [done|]. intros <-. congruence.
Qed.

(** X2. A hash database that is not valid JSON is not taken for a missing
    one: on an artifact that exists, [verify_backup] then raises the
    decoding error whatever the artifact's content, records nothing and
    leaves the state as it is; only a missing artifact is still answered
    with "Backup no encontrado". *)
Theorem verify_corrupt_ledger st f :
  hash_db st = DbCorrupt →
  fst (verify_backup sha256 f st) = st ∧
  match assoc f (backups st) with
  | Some (Readable _) =>
      snd (verify_backup sha256 f st) = inl JSONDecodeError
  | Some (Unreadable err) =>
      snd (verify_backup sha256 f st) = inl (OSError err)
  | None =>
      snd (verify_backup sha256 f st) = inr (false, "Backup no encontrado")
  end.
Proof.
  intros Hdb. destruct (assoc f (backups st)) as [[content|err]|] eqn:Hf.
  - by rewrite (verify_backup_corrupt sha256 st f content).
  - by rewrite (verify_backup_unreadable sha256 st f err).
  - by rewrite (verify_backup_not_found sha256 st f).
Qed.

End LedgerInvariants.

Section CycleProperties.

Variable sha256 : list byte → string.

Lemma full_validation_cycle_frame st :
  validation_frame st (fst (full_validation_cycle sha256 st)).
Proof.
  rewrite full_validation_cycle_unfold.
  pose proof (for_each_validate_frame sha256 (backups st).*1
                (set_stdout (stdout st ++ [LogValidationStart]) st)) as Hloop.
  destruct (for_each _ _ _) as [st1 [e|[]]]; simpl in *; exact Hloop.
Qed.

(** X3. A turn of the monitoring loop whose validation cycle raises stops
    there with the same exception: [orchestrate_restorations] is not
    called, so nothing is printed after the validation lines and the
    production directory is what it was before the turn. *)
Theorem monitoring_tick_stops_on_failed_validation st e :
  snd (full_validation_cycle sha256 st) = inl e →
  monitoring_tick sha256 st = (fst (full_validation_cycle sha256 st), inl e) ∧
  production (fst (monitoring_tick sha256 st)) = production st ∧
  ∀ line, line ∈ stdout (fst (monitoring_tick sha256 st)) →
          line ∈ stdout st ∨ line = LogValidationStart ∨
          ∃ v f msg, line = LogValidationItem v f msg.
Proof.
  intros He.
  assert (Htick : monitoring_tick sha256 st =
                    (fst (full_validation_cycle sha256 st), inl e)).
  { unfold monitoring_tick. unfold mbind at 1, M_bind at 1.
    destruct (full_validation_cycle sha256 st) as [st1 r]. simpl in *.
    by rewrite He. }
  rewrite Htick. simpl. split; [done|]. split.
  - apply full_validation_cycle_frame.
  - clear Htick. revert He. rewrite full_validation_cycle_unfold.
    assert (Hlines : ∀ names s,
      ∀ line, line ∈ stdout (fst (for_each names (validate_one sha256) s)) →
              line ∈ stdout s ∨ ∃ v f msg, line = LogValidationItem v f msg).
    { induction names as [|f names IH]; intros s line; simpl; [by left|].
      unfold mbind, M_bind.
      assert (Hone : ∀ l, l ∈ stdout (fst (validate_one sha256 f s)) →
                l ∈ stdout s ∨ ∃ v g msg, l = LogValidationItem v g msg).
      { intros l. unfold validate_one. unfold mbind at 1, M_bind at 1.
        pose proof (verify_backup_frame sha256 s f) as Hframe.
        destruct (verify_backup sha256 f s) as [s1 [e1|[v msg]]];
          simpl in *; rewrite Hframe; simpl; [by left|].
        intros Hl. apply elem_of_app in Hl as [?|Hl]; [by left|].
        apply list_elem_of_singleton in Hl as ->.
        right. by eexists _, _, _. }
      destruct (validate_one sha256 f s) as [s1 [e1|[]]]; simpl in *;
        [apply Hone|].
      intros Hin. destruct (IH s1 line Hin) as [Hs1|?]; [|by right].
      by apply Hone. }
    specialize (Hlines (backups st).*1
                  (set_stdout (stdout st ++ [LogValidationStart]) st)).
    destruct (for_each _ _ _) as [st1 [e1|[]]]; simpl in *; [|done].
    intros _ line Hin. destruct (Hlines line Hin) as [Hs|?]; [|right; by right].
    apply elem_of_app in Hs as [?|Hs]; [by left|].
    apply list_elem_of_singleton in Hs as ->. right. by left.
Qed.

(** A backup directory in which every entry can be read. *)
Definition all_readable (st : State) : Prop :=
  ∀ name node, (name, node) ∈ backups st → ∃ c, node = Readable c.

Lemma all_readable_assoc st g :
  NoDup (backups st).*1 → all_readable st → g ∈ (backups st).*1 →
  ∃ c, assoc g (backups st) = Some (Readable c).
Proof.
  intros Hnd Hall Hg. apply list_elem_of_fmap in Hg as ([k node] & -> & Hin).
  destruct (Hall k node Hin) as [c ->]. exists c. by apply assoc_NoDup.
Qed.

Lemma full_validation_cycle_spec st :
  NoDup (backups st).*1 →
  all_readable st →
  hash_db st ≠ DbCorrupt →
  ∃ st1,
    full_validation_cycle sha256 st =
      (set_stdout (stdout st1 ++ [LogValidationDone]) st1,
       inr (integrity_status st1)) ∧
    hash_db st1 ≠ DbCorrupt ∧
    (∀ g c, (g, Readable c) ∈ backups st →
       let prior := known_hashes_of (hash_db st) !! g in
       integrity_status st1 !! g =
         Some (mkIntegrityEntry (expected_outcome prior (sha256 c)).1
                 (expected_outcome prior (sha256 c)).2 (clock_iso st)) ∧
       known_hashes_of (hash_db st1) !! g =
         Some (default (sha256 c) prior)) ∧
    (∀ g, g ∉ (backups st).*1 →
       integrity_status st1 !! g = integrity_status st !! g ∧
       known_hashes_of (hash_db st1) !! g =
         known_hashes_of (hash_db st) !! g).
Proof.
  intros Hnd Hall Hdb. rewrite full_validation_cycle_unfold.
  destruct (for_each_validate_spec sha256 (backups st).*1
              (set_stdout (stdout st ++ [LogValidationStart]) st))
    as (st1 & Hloop & Hdb1 & Hin & Hout); [done| |done|].
  { intros g Hg. by apply all_readable_assoc. }
  exists st1. rewrite Hloop. split; [done|]. split; [done|]. split; [|done].
  intros g c Hgc. apply (Hin g c).
  - apply list_elem_of_fmap. by exists (g, Readable c).
  - by apply assoc_NoDup.
Qed.

(** X4. When every entry of the backup directory can be read and the hash
    database is well-formed, [full_validation_cycle] returns the agent's
    status table, in which every artifact of the directory has an entry
    stamped with the current time: valid when the artifact is seen for the
    first time or its digest equals the recorded one, invalid ("Hash no
    coincide") otherwise.  The table is not rebuilt: the entries of names
    that are no longer in the directory are kept as earlier cycles left
    them. *)
Theorem validation_cycle_snapshot st :
  NoDup (backups st).*1 →
  all_readable st →
  hash_db st ≠ DbCorrupt →
  let r := full_validation_cycle sha256 st in
  snd r = inr (integrity_status (fst r)) ∧
  (∀ name c, (name, Readable c) ∈ backups st →
     let prior := known_hashes_of (hash_db st) !! name in
     integrity_status (fst r) !! name =
       Some (mkIntegrityEntry (expected_outcome prior (sha256 c)).1
               (expected_outcome prior (sha256 c)).2 (clock_iso st))) ∧
  (∀ name, name ∉ (backups st).*1 →
     integrity_status (fst r) !! name = integrity_status st !! name).
Proof.
  intros Hnd Hall Hdb r. subst r.
  destruct (full_validation_cycle_spec st Hnd Hall Hdb)
    as (st1 & -> & _ & Hin & Hout).
  simpl. split; [done|]. split.
  - intros name c Hname. apply (Hin name c Hname).
  - intros name Hname. apply (Hout name Hname).
Qed.

(** X5. Such a cycle leaves a hash database in which every artifact of the
    directory has an entry: the digest recorded before the cycle when there
    was one, the artifact's current digest otherwise.  The entries of other
    names are untouched. *)
Theorem validation_cycle_registers_directory st :
  NoDup (backups st).*1 →
  all_readable st →
  hash_db st ≠ DbCorrupt →
  let known := known_hashes_of (hash_db st) in
  let known' :=
    known_hashes_of (hash_db (fst (full_validation_cycle sha256 st))) in
  (∀ name c, (name, Readable c) ∈ backups st →
     known' !! name = Some (default (sha256 c) (known !! name))) ∧
  (∀ name, name ∉ (backups st).*1 → known' !! name = known !! name).
Proof.
  intros Hnd Hall Hdb known known'. subst known known'.
  destruct (full_validation_cycle_spec st Hnd Hall Hdb)
    as (st1 & -> & _ & Hin & Hout).
  simpl. split.
  - intros name c Hname. apply (Hin name c Hname).
  - intros name Hname. apply (Hout name Hname).
Qed.

Lemma for_each_validate_known names st :
  (∀ g, g ∈ names →
     (∃ c, assoc g (backups st) = Some (Readable c)) ∧
     is_Some (known_hashes_of (hash_db st) !! g)) →
  hash_db st ≠ DbCorrupt →
  hash_db (fst (for_each names (validate_one sha256) st)) = hash_db st.
Proof.
  revert st. induction names as [|f names IH]; intros st Hknown Hdb; [done|].
  simpl. unfold mbind, M_bind.
  destruct (Hknown f) as [[c Hf] [d Hd]]; [apply elem_of_cons; by left|].
  pose proof (validate_one_spec sha256 st f c Hf Hdb) as Hone. cbv zeta in Hone.
  rewrite Hone.
  set (st1 := set_stdout _ _).
  assert (Hsame : hash_db st1 = hash_db st).
  { subst st1. simpl. unfold ledger_after. by rewrite Hd. }
  rewrite <- Hsame. apply IH.
  - intros g Hg. rewrite Hsame. apply Hknown. apply elem_of_cons; by right.
  - by rewrite Hsame.
Qed.

(** X6. Running the cycle a second time on the unchanged directory changes
    nothing in the hash database, and gives every artifact the validity it
    had in the first cycle. *)
Theorem validation_cycle_twice st :
  NoDup (backups st).*1 →
  all_readable st →
  hash_db st ≠ DbCorrupt →
  let st1 := fst (full_validation_cycle sha256 st) in
  let st2 := fst (full_validation_cycle sha256 st1) in
  hash_db st2 = hash_db st1 ∧
  ∀ name, name ∈ (backups st).*1 →
    ∃ entry1 entry2,
      integrity_status st1 !! name = Some entry1 ∧
      integrity_status st2 !! name = Some entry2 ∧
      valid entry2 = valid entry1.
Proof.
  intros Hnd Hall Hdb st1 st2.
  destruct (full_validation_cycle_spec st Hnd Hall Hdb)
    as (s1 & Hcycle & Hdb1 & Hin & _).
  assert (Hback : backups st1 = backups st).
  { apply (full_validation_cycle_frame st). }
  assert (Hst1 : st1 = set_stdout (stdout s1 ++ [LogValidationDone]) s1).
  { subst st1. by rewrite Hcycle. }
  assert (Hnd1 : NoDup (backups st1).*1) by by rewrite Hback.
  assert (Hall1 : all_readable st1).
  { intros name node. rewrite Hback. apply Hall. }
  assert (Hdb1' : hash_db st1 ≠ DbCorrupt) by by rewrite Hst1.
  destruct (full_validation_cycle_spec st1 Hnd1 Hall1 Hdb1')
    as (s2 & Hcycle2 & _ & Hin2 & _).
  split.
  - subst st2. rewrite full_validation_cycle_unfold.
    pose proof (for_each_validate_known (backups st1).*1
                  (set_stdout (stdout st1 ++ [LogValidationStart]) st1))
      as Hknown.
    destruct (for_each _ _ _) as [s [e|[]]]; simpl in *; apply Hknown;
      try done;
      intros g Hg; (split; [by apply all_readable_assoc|]);
      rewrite Hback in Hg;
      apply list_elem_of_fmap in Hg as ([k node] & -> & Hk);
      destruct (Hall k node Hk) as [c ->];
      destruct (Hin k c Hk) as [_ Hentry];
      rewrite Hst1; simpl; rewrite Hentry; by eexists.
  - intros name Hname.
    apply list_elem_of_fmap in Hname as ([k node] & -> & Hk).
    destruct (Hall k node Hk) as [c ->].
    destruct (Hin k c Hk) as [Hs1 Hk1]. cbv zeta in Hs1, Hk1.
    assert (Hk' : (k, Readable c) ∈ backups st1) by by rewrite Hback.
    destruct (Hin2 k c Hk') as [Hs2 _]. cbv zeta in Hs2.
    eexists _, _. split; [by rewrite Hst1|]. split.
    + subst st2. rewrite Hcycle2. simpl. exact Hs2.
    + simpl. rewrite Hst1. simpl. rewrite Hk1.
      destruct (known_hashes_of (hash_db st) !! k) as [d|]; simpl; [done|].
      by rewrite String.eqb_refl.
Qed.

End CycleProperties.

Section RestoreProperties.

Variable sha256 : list byte → string.

(** The copy block turns every exception into a result. *)
Lemma restore_copy_returns st service f partial :
  ∃ r, snd (restore_copy service f partial st) = inr r.
Proof.
  unfold restore_copy, try_except.
  match goal with
  | |- context [match ?body st with _ => _ end] =>
      destruct (body st) as [st' [e|r]]
  end; simpl; eauto.
Qed.

(** X7. The [try ... except] of [restore_service] covers the copy only: the
    method raises exactly when the verification of the artifact raises (an
    unreadable artifact, a hash database that cannot be decoded), with the
    same exception, and then the production directory is untouched.  A
    failure of the copy itself never escapes as an exception. *)
Theorem restore_raises_exactly_when_verify_does st service f partial e :
  (snd (restore_service sha256 service f partial st) = inl e ↔
   snd (verify_backup sha256 f st) = inl e) ∧
  (snd (verify_backup sha256 f st) = inl e →
   production (fst (restore_service sha256 service f partial st)) =
     production st).
Proof.
  rewrite restore_service_unfold. cbv zeta. rewrite verify_backup_stdout.
  pose proof (verify_backup_frame sha256 st f) as Hframe.
  destruct (verify_backup sha256 f st) as [st1 [e1|[[] m]]]; simpl in *.
  - by rewrite Hframe.
  - destruct (restore_copy_returns
                (set_stdout (stdout st ++ [LogRestoreStart service partial])
                   st1) service f partial) as [r Hr].
    rewrite Hr. split; [split|]; done.
  - split; [split|]; done.
Qed.

(** X8. Whatever [restore_service] reports as a success is the restoration
    of an artifact that matches the ledger: the artifact was read, its
    digest is the one recorded in the hash database after the call, no copy
    fault occurred, and the target file of the chosen mode holds exactly
    the artifact's bytes. *)
Theorem successful_restore_matches_ledger st service f partial m :
  snd (restore_service sha256 service f partial st) = inr (true, m) →
  ∃ content,
    assoc f (backups st) = Some (Readable content) ∧
    known_hashes_of
      (hash_db (fst (restore_service sha256 service f partial st))) !! f =
      Some (sha256 content) ∧
    target_file (fst (restore_service sha256 service f partial st))
      service (restore_name partial) = Some content ∧
    copy_faults st !! service = None ∧
    m = "Restauración exitosa".
Proof.
  intros Hok.
  assert (Hvalid : ∃ vm, snd (verify_backup sha256 f st) = inr (true, vm)).
  { revert Hok. rewrite restore_service_unfold. cbv zeta.
    rewrite verify_backup_stdout.
    destruct (verify_backup sha256 f st) as [st1 [e1|[[] vm]]]; simpl;
      [done | by eauto | done]. }
  destruct Hvalid as [vm Hvm].
  destruct (verify_backup_valid_readable sha256 st f vm Hvm)
    as [content Hf].
  assert (Hdb : hash_db st ≠ DbCorrupt).
  { intros Hc. by rewrite (verify_backup_corrupt sha256 st f content) in Hvm. }
  rewrite (restore_service_valid sha256 st service f partial content vm Hf Hvm)
    in *.
  simpl in *. exists content. split; [done|].
  rewrite (verify_backup_spec sha256 st f content Hf Hdb) in *. simpl in *.
  split; [|split].
  - rewrite ledger_after_lookup, decide_True by done.
    unfold expected_outcome in Hvm.
    destruct (known_hashes_of (hash_db st) !! f) as [d|]; simpl; [|done].
    destruct (String.eqb_spec d (sha256 content)) as [Heq|Hne].
    + by rewrite Heq.
    + discriminate Hvm.
  - unfold target_file. simpl. rewrite lookup_insert_eq. simpl.
    rewrite lookup_insert_eq.
    destruct (copy_faults st !! service) as [[k err]|]; [|done].
    discriminate Hok.
  - destruct (copy_faults st !! service) as [[k err]|]; simpl in Hok.
    + discriminate Hok.
    + by injection Hok as <-.
Qed.

End RestoreProperties.

Section PriorityProperties.

Variable sha256 : list byte → string.

(** The value that [prioritize_services] computes for a service, or the
    exception that the computation raises. *)
Definition priority_value (demands : gmap string Z)
    (service : string) (data : ServiceData) : Exn + spec_float :=
  match Py.truediv (default 0%Z (demands !! service))
          (demand_threshold data) with
  | inl e => inl e
  | inr demand_ratio =>
      match Py.int_div_float 1 (Py.max Py.float_0_1 demand_ratio) with
      | inl e => inl e
      | inr factor => Py.mul (priority data) factor
      end
  end.

(** The list that [prioritize_services] sorts, or the first exception
    raised while it is built. *)
Fixpoint priority_list_of (demands : gmap string Z)
    (items : list (string * ServiceData))
    : Exn + list (spec_float * string) :=
  match items with
  | [] => inr []
  | (service, data) :: items' =>
      match priority_value demands service data with
      | inl e => inl e
      | inr value =>
          match priority_list_of demands items' with
          | inl e => inl e
          | inr rest => inr ((value, service) :: rest)
          end
      end
  end.

Lemma service_priority_pure demands service data st :
  service_priority demands service data st =
    (st, match priority_value demands service data with
         | inl e => inl e
         | inr value => inr (value, service)
         end).
Proof.
  unfold service_priority, priority_value. unfold_monad.
  destruct (Py.truediv _ _) as [e|demand_ratio]; [done|].
  destruct (Py.int_div_float _ _) as [e|factor]; [done|].
  by destruct (Py.mul _ _).
Qed.

(** The priority list does not depend on the state, and computing it
    leaves the state alone. *)
Lemma build_priority_list_pure demands items st :
  build_priority_list demands items st =
    (st, priority_list_of demands items).
Proof.
  induction items as [|[service data] items IH]; [done|].
  simpl. unfold mbind, M_bind. rewrite service_priority_pure.
  destruct (priority_value demands service data) as [e|value]; [done|].
  rewrite IH. by destruct (priority_list_of demands items).
Qed.

Lemma prioritize_services_result st :
  prioritize_services st =
    (set_current_demands demand_sample st,
     match priority_list_of demand_sample (critical_services st) with
     | inl e => inl e
     | inr priority_list => inr (sort_by_key priority_list).*2
     end).
Proof.
  unfold prioritize_services, evaluate_demands.
  unfold mbind, M_bind, gets, modify. simpl.
  rewrite build_priority_list_pure.
  by destruct (priority_list_of _ _).
Qed.

Lemma priority_list_names demands items priority_list :
  priority_list_of demands items = inr priority_list →
  priority_list.*2 = items.*1.
Proof.
  revert priority_list.
  induction items as [|[service data] items IH]; intros pl; simpl.
  - by intros [= <-].
  - destruct (priority_value demands service data) as [e|value]; [done|].
    destruct (priority_list_of demands items) as [e|rest]; [done|].
    intros [= <-]. simpl. f_equal. by apply IH.
Qed.

(** The exceptions of Python arithmetic. *)
Definition arithmetic_error (e : Exn) : Prop :=
  match e with
  | ZeroDivisionError _ | OverflowError _ => True
  | KeyError _ | JSONDecodeError | OSError _ => False
  end.

Lemma float_of_int_error z e :
  Py.float_of_int z = inl e → arithmetic_error e.
Proof.
  unfold Py.float_of_int.
  by destruct (binary_normalize _ _ _ _ _); intros [= <-].
Qed.

Lemma float_truediv_error x y e :
  Py.float_truediv x y = inl e → arithmetic_error e.
Proof. by destruct y; intros [= <-]. Qed.

Lemma int_div_float_error a y e :
  Py.int_div_float a y = inl e → arithmetic_error e.
Proof.
  unfold Py.int_div_float.
  destruct (Py.float_of_int a) as [err|x] eqn:Hx.
  - intros [= <-]. by eapply float_of_int_error.
  - apply float_truediv_error.
Qed.

Lemma truediv_error a b e :
  Py.truediv a b = inl e → arithmetic_error e.
Proof.
  destruct b as [z|s m x]; simpl.
  - unfold Py.int_truediv.
    destruct z; [by intros [= <-]| |];
      by destruct (SFdiv _ _ _ _); intros [= <-].
  - apply int_div_float_error.
Qed.

Lemma mul_error x y e : Py.mul x y = inl e → arithmetic_error e.
Proof.
  unfold Py.mul. destruct (Py.as_float x) as [err|f] eqn:Hx; [|done].
  intros [= <-]. destruct x; [by eapply float_of_int_error | done].
Qed.

Lemma priority_value_error demands service data e :
  priority_value demands service data = inl e → arithmetic_error e.
Proof.
  unfold priority_value.
  destruct (Py.truediv _ _) as [err|demand_ratio] eqn:Hratio.
  { intros [= <-]. by eapply truediv_error. }
  destruct (Py.int_div_float _ _) as [err|factor] eqn:Hfactor.
  { intros [= <-]. by eapply int_div_float_error. }
  apply mul_error.
Qed.

(** A service whose threshold is zero: [0], [0.0] or [-0.0]. *)
Definition zero_threshold (item : string * ServiceData) : Prop :=
  match demand_threshold item.2 with
  | PyInt z => z = 0%Z
  | PyFloat _ m _ => m = 0%N
  end.

Lemma priority_value_zero demands service data :
  zero_threshold (service, data) →
  ∃ e, priority_value demands service data = inl e.
Proof.
  unfold zero_threshold, priority_value. simpl.
  destruct (demand_threshold data) as [z|s m x]; intros ->; simpl.
  - by eexists.
  - unfold Py.int_div_float.
    destruct (Py.float_of_int _); by eexists.
Qed.

Lemma priority_list_zero demands items :
  Exists zero_threshold items →
  ∃ e, priority_list_of demands items = inl e ∧ arithmetic_error e.
Proof.
  induction 1 as [[service data] items Hz|[service data] items _ IH]; simpl.
  - destruct (priority_value_zero demands service data Hz) as [e He].
    rewrite He. exists e. split; [done|]. by eapply priority_value_error.
  - destruct (priority_value demands service data) as [e|value] eqn:Hv.
    + exists e. split; [done|]. by eapply priority_value_error.
    + destruct IH as (e & -> & He). by exists e.
Qed.

(** X10. A single service with a zero threshold anywhere in the registry
    makes every run of [orchestrate_restorations] raise an arithmetic
    exception while the priorities are computed ([ZeroDivisionError] for
    that service, unless the priority of a service listed before it has
    already raised one): no service is restored, whatever its own
    threshold; the run has only printed its first line and overwritten the
    demand sample. *)
Theorem zero_threshold_aborts_orchestration st :
  Exists zero_threshold (critical_services st) →
  ∃ e,
    arithmetic_error e ∧
    priority_list_of demand_sample (critical_services st) = inl e ∧
    orchestrate_restorations sha256 st =
      (set_current_demands demand_sample
         (set_stdout (stdout st ++ [LogOrchestrationStart]) st),
       inl e).
Proof.
  intros Hz.
  destruct (priority_list_zero demand_sample _ Hz) as (e & He & Harith).
  exists e. split; [done|]. split; [done|].
  rewrite orchestrate_unfold, prioritize_services_result. simpl.
  by rewrite He.
Qed.

End PriorityProperties.

Section SortProperties.

(** Two entries in ascending order of priority value: the second is not
    below the first. *)
Definition key_le (a b : spec_float * string) : Prop :=
  SFltb (fst b) (fst a) = false.

#[local] Instance spec_float_eq_dec : EqDecision spec_float.
Proof. solve_decision. Defined.

(** The entries whose priority value is the number [k]. *)
Definition with_key (k : spec_float) (l : list (spec_float * string))
    : list (spec_float * string) :=
  filter (λ x, fst x = k) l.

Lemma SFcompare_antisym x y :
  SFcompare y x = CompOpp <$> SFcompare x y.
Proof.
  destruct x as [sx|sx| |sx mx ex], y as [sy|sy| |sy my ey]; simpl;
    try done; try (by destruct sx); try (by destruct sy);
    try (by destruct sx, sy).
  destruct sx, sy; simpl; try done.
  - rewrite (Z.compare_antisym ey ex).
    destruct (ey ?= ex)%Z; simpl; try done.
    by rewrite (Pos.compare_cont_antisym _ _ Eq), CompOpp_involutive.
  - rewrite (Z.compare_antisym ey ex).
    destruct (ey ?= ex)%Z; simpl; try done.
    by rewrite (Pos.compare_cont_antisym _ _ Eq).
Qed.

Lemma SFltb_asym x y : SFltb x y = true → SFltb y x = false.
Proof.
  unfold SFltb. rewrite (SFcompare_antisym x y).
  by destruct (SFcompare x y) as [[]|].
Qed.

Lemma SFltb_irrefl x : SFltb x x = false.
Proof.
  destruct (SFltb x x) eqn:E; [|done].
  pose proof (SFltb_asym x x E). congruence.
Qed.

Lemma insert_by_key_perm x l : insert_by_key x l ≡ₚ x :: l.
Proof.
  induction l as [|y l IH]; simpl; [done|].
  destruct (SFltb (fst y) (fst x)); [|done].
  rewrite IH. apply Permutation_swap.
Qed.

Lemma sort_by_key_perm l : sort_by_key l ≡ₚ l.
Proof.
  induction l as [|x l IH]; simpl; [done|].
  unfold sort_by_key in *. simpl. by rewrite insert_by_key_perm, IH.
Qed.

Lemma insert_by_key_sorted x l :
  Sorted key_le l → Sorted key_le (insert_by_key x l).
Proof.
  induction 1 as [|y l Hsorted IH Hy]; simpl.
  - repeat constructor.
  - destruct (SFltb (fst y) (fst x)) eqn:E.
    + constructor; [done|].
      destruct l as [|z l]; simpl in *.
      * constructor. by apply SFltb_asym.
      * destruct (SFltb (fst z) (fst x)).
        -- constructor. by inversion Hy.
        -- constructor. by apply SFltb_asym.
    + constructor; [by constructor|]. by constructor.
Qed.

Lemma sort_by_key_sorted l : Sorted key_le (sort_by_key l).
Proof.
  induction l as [|x l IH]; [constructor|].
  unfold sort_by_key in *. simpl. by apply insert_by_key_sorted.
Qed.

Lemma insert_by_key_stable k x l :
  with_key k (insert_by_key x l) = with_key k (x :: l).
Proof.
  induction l as [|y l IH]; simpl; [done|].
  destruct (SFltb (fst y) (fst x)) eqn:E; [|done].
  unfold with_key in *. rewrite filter_cons, IH, !filter_cons.
  repeat case_decide; try done.
  assert (SFltb (fst y) (fst x) = false); [|congruence].
  replace (fst y) with k by done. replace (fst x) with k by done.
  apply SFltb_irrefl.
Qed.

Lemma sort_by_key_stable k l : with_key k (sort_by_key l) = with_key k l.
Proof.
  induction l as [|x l IH]; [done|].
  unfold sort_by_key in *. simpl. rewrite insert_by_key_stable.
  unfold with_key in *. by rewrite !filter_cons, IH.
Qed.

(** X11. When the priorities of the registry are computed without
    exception, [prioritize_services] returns every service of the
    registry exactly once: its result is a permutation of the registry's
    keys, so that a run can neither skip a service for lack of a position
    nor visit one twice. *)
Theorem prioritize_services_permutes_registry st names :
  snd (prioritize_services st) = inr names →
  prioritize_services st = (set_current_demands demand_sample st, inr names) ∧
  names ≡ₚ (critical_services st).*1.
Proof.
  rewrite prioritize_services_result. simpl.
  destruct (priority_list_of _ _) as [e|priority_list] eqn:Hpl; [done|].
  intros [= <-]. split; [done|].
  by rewrite sort_by_key_perm, (priority_list_names _ _ _ Hpl).
Qed.

(** X12. The order returned by [prioritize_services] is that of the
    computed priority values, ascending, the values being compared as
    Python compares [float]s, and services of the same value keep the
    order they have in the registry: the returned names are those of a
    rearrangement of the priority list in which no entry is followed by an
    entry of smaller value and in which, for every value, the entries of
    that value appear as in the registry. *)
Theorem prioritize_services_order st priority_list :
  priority_list_of demand_sample (critical_services st) = inr priority_list →
  ∃ sorted,
    snd (prioritize_services st) = inr sorted.*2 ∧
    sorted ≡ₚ priority_list ∧
    Sorted key_le sorted ∧
    ∀ k, with_key k sorted = with_key k priority_list.
Proof.
  intros Hpl. rewrite prioritize_services_result. simpl. rewrite Hpl.
  exists (sort_by_key priority_list). split; [done|].
  split; [apply sort_by_key_perm|].
  split; [apply sort_by_key_sorted|].
  intros k. apply sort_by_key_stable.
Qed.

End SortProperties.

Section RunProperties.

Variable sha256 : list byte → string.

(** What a run of [orchestrate_restorations] never writes, and what it
    only extends. *)
Definition run_frame (st st' : State) : Prop :=
  critical_services st' = critical_services st ∧
  backups st' = backups st ∧
  copy_faults st' = copy_faults st ∧
  clock_ymd st' = clock_ymd st ∧
  integrity_status st' = integrity_status st ∧
  ∀ g d, known_hashes_of (hash_db st) !! g = Some d →
         known_hashes_of (hash_db st') !! g = Some d.

Lemma run_frame_refl st : run_frame st st.
Proof. by repeat split. Qed.

Lemma run_frame_trans st1 st2 st3 :
  run_frame st1 st2 → run_frame st2 st3 → run_frame st1 st3.
Proof.
  intros (?&?&?&?&?&H12) (?&?&?&?&?&H23).
  repeat split; try congruence. intros g d Hg. by apply H23, H12.
Qed.

Lemma verify_backup_keeps_entries st f g d :
  known_hashes_of (hash_db st) !! g = Some d →
  known_hashes_of (hash_db (fst (verify_backup sha256 f st))) !! g = Some d.
Proof.
  intros Hg.
  destruct (verify_backup_cases sha256 st f)
    as [-> | (content & _ & Hnone & ->)]; [done|].
  simpl. rewrite lookup_insert_ne; [done|]. intros <-. congruence.
Qed.

Lemma restore_service_run_frame st service f partial :
  run_frame st (fst (restore_service sha256 service f partial st)).
Proof.
  rewrite restore_service_unfold. cbv zeta. rewrite verify_backup_stdout.
  pose proof (verify_backup_frame sha256 st f) as Hframe.
  pose proof (λ g d, verify_backup_keeps_entries st f g d) as Hkeep.
  destruct (verify_backup sha256 f st) as [st1 [e|[[] m]]]; simpl in *.
  - rewrite Hframe in *. by repeat split.
  - match goal with
    | |- context [restore_copy ?s ?g ?b ?x] =>
        destruct (restore_copy_frame x s g b) as [p ->]
    end.
    rewrite Hframe in *. by repeat split.
  - rewrite Hframe in *. by repeat split.
Qed.

Lemma restore_iteration_run_frame st service results :
  run_frame st (fst (restore_iteration sha256 service results st)) ∧
  current_demands (fst (restore_iteration sha256 service results st)) =
    current_demands st.
Proof.
  destruct (restore_iteration_cases sha256 st service results)
    as [[e ->] | (data & partial & _ & _ & ->)].
  - split; [apply run_frame_refl | done].
  - pose proof (restore_service_run_frame st service
                  (backup_file_name service (clock_ymd st)) partial) as Hrun.
    pose proof (restore_service_frame sha256 st service
                  (backup_file_name service (clock_ymd st)) partial)
      as [(_&_&_&_&Hdem) _].
    by destruct (restore_service _ _ _ _ _) as [st' [e|[ok msg]]].
Qed.

Lemma restore_loop_run_frame l results st :
  run_frame st (fst (restore_loop sha256 l results st)) ∧
  current_demands (fst (restore_loop sha256 l results st)) =
    current_demands st.
Proof.
  revert results st. induction l as [|service rest IH]; intros results st.
  - split; [apply run_frame_refl | done].
  - simpl. unfold mbind, M_bind.
    pose proof (restore_iteration_run_frame st service results)
      as [Hone Hdem].
    destruct (restore_iteration sha256 service results st)
      as [st1 [e|[results' []]]]; simpl in *; try done.
    destruct (IH results' st1) as [Hrest Hdem'].
    split; [by eapply run_frame_trans | congruence].
Qed.

(** X13. However it ends (results or exception), a run of
    [orchestrate_restorations] writes only to the production directory,
    the hash database and the standard output: the backup directory, the
    registry and the status table of the validation agent are what they
    were, and the agent's demand sample is the simulated one.  In the hash
    database the run only registers files: no digest recorded before the
    run has been changed or removed by it (the rewriting of
    [hash_db.json] being taken to succeed). *)
Theorem orchestrate_preserves_backups_and_ledger st :
  run_frame st (fst (orchestrate_restorations sha256 st)) ∧
  current_demands (fst (orchestrate_restorations sha256 st)) = demand_sample.
Proof.
  rewrite orchestrate_unfold, prioritize_services_result.
  destruct (priority_list_of _ _) as [e|priority_list].
  - simpl. split; [by repeat split | done].
  - unfold mbind, M_bind.
    match goal with
    | |- context [restore_loop sha256 ?l ?r ?s] =>
        pose proof (restore_loop_run_frame l r s) as [Hrun Hdem];
        destruct (restore_loop sha256 l r s) as [st2 [e|results]]
    end; simpl in *.
    + split; [|done]. destruct Hrun as (?&?&?&?&?&?). by repeat split.
    + unfold_monad. simpl.
      split; [|done]. destruct Hrun as (?&?&?&?&?&?). by repeat split.
Qed.

End RunProperties.

Section RunOutcomes.

Variable sha256 : list byte → string.

Definition invalid_backup : RestoreResult :=
  mkRestoreResult false "Backup inválido".

(** The registry is one for which the arithmetic of a run raises no
    exception: the priority values and the restoration modes of all the
    services are computed. *)
Definition computable_registry (st : State) : Prop :=
  (∃ priority_list,
     priority_list_of demand_sample (critical_services st) =
       inr priority_list) ∧
  ∀ service data,
    assoc service (critical_services st) = Some data →
    ∃ partial,
      restore_mode (default 0%Z (demand_sample !! service))
        (demand_threshold data) = inr partial.

Lemma restore_service_not_found st service f partial :
  assoc f (backups st) = None →
  restore_service sha256 service f partial st =
    (set_stdout (stdout st ++ [LogRestoreStart service partial]) st,
     inr (false, "Backup inválido")).
Proof.
  intros Hf. rewrite restore_service_unfold. cbv zeta.
  by rewrite verify_backup_stdout, (verify_backup_not_found sha256 st f).
Qed.

(** The loop on services none of which has a backup of the day. *)
Lemma restore_loop_without_backups l results st :
  (∀ s, s ∈ l →
     (∃ data partial,
        assoc s (critical_services st) = Some data ∧
        restore_mode (sampled_demand st s) (demand_threshold data) =
          inr partial) ∧
     assoc (backup_file_name s (clock_ymd st)) (backups st) = None) →
  ∃ out results',
    restore_loop sha256 l results st = (set_stdout out st, inr results') ∧
    (∀ s, s ∈ l → results' !! s = Some invalid_backup) ∧
    (∀ s, s ∉ l → results' !! s = results !! s).
Proof.
  revert results st. induction l as [|service rest IH]; intros results st Hl.
  - exists (stdout st), results. split; [by destruct st|]. split; [|done].
    intros s Hs. by apply elem_of_nil in Hs.
  - destruct (Hl service) as [(data & partial & Hdata & Hmode) Hmissing];
      [apply elem_of_cons; by left|].
    simpl. unfold mbind, M_bind.
    rewrite (restore_iteration_unfold sha256 st service results data partial
               Hdata Hmode).
    rewrite restore_service_not_found by done. simpl.
    destruct (IH (<[service := invalid_backup]> results)
                (set_stdout (stdout st ++ [LogRestoreStart service partial])
                   st))
      as (out & results' & Hloop & Hin & Hout).
    { intros s Hs. simpl. apply Hl. apply elem_of_cons; by right. }
    exists out, results'. unfold invalid_backup in *.
    split; [by rewrite Hloop|]. split.
    + intros s Hs. destruct (decide (s ∈ rest)) as [?|Hnot]; [by apply Hin|].
      apply elem_of_cons in Hs as [->|?]; [|done].
      by rewrite (Hout service Hnot), lookup_insert_eq.
    + intros s Hs. apply not_elem_of_cons in Hs as [Hne Hs].
      by rewrite (Hout s Hs), lookup_insert_ne.
Qed.

(** X14. On a day for which no service has a backup file, and for a
    registry whose arithmetic raises no exception, a run of
    [orchestrate_restorations] visits every service of the registry
    without stopping early, records the failure "Backup inválido" for each
    of them and for nothing else, and leaves the production directory and
    the hash database as they were. *)
Theorem orchestrate_without_backups st :
  computable_registry st →
  (∀ s, s ∈ (critical_services st).*1 →
        assoc (backup_file_name s (clock_ymd st)) (backups st) = None) →
  ∃ results,
    snd (orchestrate_restorations sha256 st) = inr results ∧
    (∀ s, s ∈ (critical_services st).*1 →
          results !! s = Some invalid_backup) ∧
    (∀ s, s ∉ (critical_services st).*1 → results !! s = None) ∧
    production (fst (orchestrate_restorations sha256 st)) = production st ∧
    hash_db (fst (orchestrate_restorations sha256 st)) = hash_db st.
Proof.
  intros [[priority_list Hpl] Hmodes] Hmissing.
  rewrite orchestrate_unfold, prioritize_services_result. simpl.
  rewrite Hpl.
  set (names := (sort_by_key _).*2).
  assert (Hnames : names ≡ₚ (critical_services st).*1).
  { subst names.
    by rewrite sort_by_key_perm, (priority_list_names _ _ _ Hpl). }
  unfold mbind, M_bind.
  match goal with
  | |- context [restore_loop sha256 names ∅ ?s] =>
      destruct (restore_loop_without_backups names ∅ s)
        as (out & results & Hloop & Hin & Hout)
  end.
  { intros s Hs. rewrite Hnames in Hs. simpl. split; [|by apply Hmissing].
    destruct (assoc_elem_of s (critical_services st) Hs) as (data & Hdata & _).
    destruct (Hmodes s data Hdata) as [partial Hmode].
    by exists data, partial. }
  rewrite Hloop. unfold_monad. simpl. exists results.
  split; [done|]. split; [|split; [|done]].
  - intros s Hs. apply Hin. by rewrite Hnames.
  - intros s Hs. rewrite Hout, lookup_empty; [done|]. by rewrite Hnames.
Qed.

End RunOutcomes.

Section EarlyExit.

Variable sha256 : list byte → string.

(** The loop stopped on [last]: its restoration succeeded and its sampled
    demand is below its threshold. *)
Definition stopped_on (st : State) (results : gmap string RestoreResult)
    (visited : list string) : Prop :=
  ∃ before last data m,
    visited = (before ++ [last])%list ∧
    results !! last = Some (mkRestoreResult true m) ∧
    assoc last (critical_services st) = Some data ∧
    Py.lt (default 0%Z (current_demands st !! last)) (demand_threshold data)
      = true.

Lemma restore_loop_prefix l results st final :
  snd (restore_loop sha256 l results st) = inr final →
  ∃ visited deferred,
    l = (visited ++ deferred)%list ∧
    (∀ s, is_Some (final !! s) ↔ is_Some (results !! s) ∨ s ∈ visited) ∧
    (deferred ≠ [] → stopped_on st final visited).
Proof.
  revert results st.
  induction l as [|service rest IH]; intros results st Hfinal.
  - simpl in Hfinal. injection Hfinal as <-. exists [], [].
    split; [done|]. split; [|done].
    intros s. split; [by left|]. intros [?|Hs]; [done|].
    by apply elem_of_nil in Hs.
  - simpl in Hfinal. unfold mbind, M_bind in Hfinal.
    pose proof (restore_iteration_run_frame sha256 st service results)
      as [(Hcs & _) Hdem].
    destruct (restore_iteration_cases sha256 st service results)
      as [[e Hit] | (data & partial & Hdata & Hmode & Hit)];
      rewrite Hit in Hfinal, Hcs, Hdem; [done|].
    destruct (restore_service _ _ _ _ _) as [st1 [e|[ok msg]]];
      simpl in *; [done|].
    destruct (ok && Py.lt (sampled_demand st service)
                      (demand_threshold data)) eqn:Hstop; simpl in Hfinal.
    + injection Hfinal as <-.
      apply andb_true_iff in Hstop as [-> Hlt].
      exists [service], rest. split; [done|]. split.
      * intros s. rewrite list_elem_of_singleton.
        destruct (decide (s = service)) as [->|Hne].
        -- rewrite lookup_insert_eq. split; [by right | by eexists].
        -- rewrite lookup_insert_ne by done. split; [by left|].
           by intros [?|?].
      * intros _. exists [], service, data, msg.
        by rewrite lookup_insert_eq.
    + destruct (IH _ _ Hfinal) as (visited & deferred & -> & Hdom & Hstopped).
      exists (service :: visited), deferred. split; [done|]. split.
      * intros s. rewrite Hdom, elem_of_cons.
        destruct (decide (s = service)) as [->|Hne].
        -- rewrite lookup_insert_eq. split; [by right; left | by left; eexists].
        -- rewrite lookup_insert_ne by done. split.
           ++ intros [?|?]; [by left | by right; right].
           ++ intros [?|[?|?]]; [by left | done | by right].
      * intros Hdef.
        destruct (Hstopped Hdef) as (before & last & d & m & -> & ? & ? & ?).
        exists (service :: before), last, d, m.
        rewrite <- Hcs, <- Hdem. by repeat split.
Qed.

(** X15. The services that have a result at the end of a run of
    [orchestrate_restorations] are exactly those of an initial stretch of
    the priority order: a service is never restored before one that
    precedes it in the order was tried.  And when some services are left
    out, the run stopped on the last one it tried, whose restoration
    succeeded and whose sampled demand is below its threshold. *)
Theorem orchestrate_visits_a_prefix st results :
  snd (orchestrate_restorations sha256 st) = inr results →
  ∃ visited deferred,
    snd (prioritize_services st) = inr (visited ++ deferred)%list ∧
    (∀ s, is_Some (results !! s) ↔ s ∈ visited) ∧
    (deferred ≠ [] →
     stopped_on (set_current_demands demand_sample st) results visited).
Proof.
  rewrite orchestrate_unfold.
  rewrite !prioritize_services_result. simpl.
  destruct (priority_list_of _ _) as [e|pl]; simpl; [done|].
  unfold mbind, M_bind. intros Hres.
  match type of Hres with
  | context [restore_loop sha256 ?l ?r ?s] =>
      pose proof (restore_loop_prefix l r s) as Hprefix;
      destruct (restore_loop sha256 l r s) as [s2 [e|final]]
  end; simpl in *; [done|].
  unfold_monad. simpl in Hres. injection Hres as <-.
  destruct (Hprefix final eq_refl)
    as (visited & deferred & Hl & Hdom & Hstopped).
  exists visited, deferred. rewrite Hl. split; [done|]. split.
  - intros s. rewrite Hdom, lookup_empty. split; [|by right].
    intros [[? ?]|?]; done.
  - intros Hdef. destruct (Hstopped Hdef)
      as (before & last & d & m & -> & ? & ? & ?).
    by exists before, last, d, m.
Qed.

End EarlyExit.

Section FileNames.

Lemma string_length_app (s t : string) :
  String.length (s +:+ t) = String.length s + String.length t.
Proof. induction s as [|c s IH]; simpl; [done | by rewrite IH]. Qed.

Lemma string_app_inj_r (s1 s2 t : string) : s1 +:+ t = s2 +:+ t → s1 = s2.
Proof.
  revert s2. induction s1 as [|c1 s1 IH]; intros [|c2 s2] Heq; simpl in Heq.
  - done.
  - apply (f_equal String.length) in Heq. simpl in Heq.
    rewrite ?string_length_app in Heq. simpl in Heq. lia.
  - apply (f_equal String.length) in Heq. simpl in Heq.
    rewrite ?string_length_app in Heq. simpl in Heq. lia.
  - injection Heq as -> Heq. f_equal. by apply IH.
Qed.

(** X16. The naming convention keeps the backups apart: on a given day two
    different services never share a backup file name, and for a given
    service two different date stamps never give the same name. *)
Theorem backup_file_name_injective :
  (∀ ymd service1 service2,
     backup_file_name service1 ymd = backup_file_name service2 ymd →
     service1 = service2) ∧
  (∀ service ymd1 ymd2,
     backup_file_name service ymd1 = backup_file_name service ymd2 →
     ymd1 = ymd2).
Proof.
  unfold backup_file_name. split.
  - intros ymd service1 service2 Heq. by apply string_app_inj_r in Heq.
  - intros service ymd1 ymd2 Heq.
    apply String.app_inj in Heq. apply (String.app_inj "_backup_") in Heq.
    by apply string_app_inj_r in Heq.
Qed.

End FileNames.

Section Composition.

Variable sha256 : list byte → string.

(** Every artifact of the backup directory has a ledger entry. *)
Definition ledger_complete (st : State) : Prop :=
  ∀ f c, assoc f (backups st) = Some (Readable c) →
         is_Some (known_hashes_of (hash_db st) !! f).

Lemma assoc_Some_elem_of {A : Type} (k : string) (v : A)
    (l : list (string * A)) :
  assoc k l = Some v → (k, v) ∈ l.
Proof.
  induction l as [|[k' v'] l IH]; simpl; [done|].
  destruct (String.eqb_spec k k') as [->|_].
  - intros [= ->]. apply elem_of_cons; by left.
  - intros Hl. apply elem_of_cons; right. by apply IH.
Qed.

Lemma verify_backup_complete st f :
  ledger_complete st → fst (verify_backup sha256 f st) = st.
Proof.
  intros Hcomplete.
  destruct (verify_backup_cases sha256 st f)
    as [? | (content & Hf & Hnone & _)]; [done|].
  destruct (Hcomplete f content Hf) as [d Hd]. congruence.
Qed.

Lemma restore_service_hash_db st service f partial :
  hash_db (fst (restore_service sha256 service f partial st)) =
    hash_db (fst (verify_backup sha256 f st)).
Proof.
  rewrite restore_service_unfold. cbv zeta. rewrite verify_backup_stdout.
  destruct (verify_backup sha256 f st) as [st1 [e|[[] m]]]; simpl; try done.
  match goal with
  | |- context [restore_copy ?s ?g ?b ?x] =>
      by destruct (restore_copy_frame x s g b) as [p ->]
  end.
Qed.

Lemma restore_loop_complete l results st :
  ledger_complete st →
  hash_db (fst (restore_loop sha256 l results st)) = hash_db st.
Proof.
  revert results st. induction l as [|service rest IH]; intros results st Hc;
    [done|].
  simpl. unfold mbind, M_bind.
  assert (Hone : hash_db (fst (restore_iteration sha256 service results st)) =
                   hash_db st ∧
                 backups (fst (restore_iteration sha256 service results st)) =
                   backups st).
  { split; [|apply (restore_iteration_run_frame sha256 st service results)].
    destruct (restore_iteration_cases sha256 st service results)
      as [[e ->] | (data & partial & _ & _ & ->)]; [done|].
    pose proof (restore_service_hash_db st service
                  (backup_file_name service (clock_ymd st)) partial) as Hdb.
    rewrite verify_backup_complete in Hdb by done.
    by destruct (restore_service _ _ _ _ _) as [st' [e|[ok msg]]]. }
  destruct Hone as [Hdb Hback].
  destruct (restore_iteration sha256 service results st)
    as [st1 [e|[results' []]]]; simpl in *; try done.
  rewrite <- Hdb. apply IH. unfold ledger_complete. by rewrite Hback, Hdb.
Qed.

Lemma orchestrate_complete st :
  ledger_complete st →
  hash_db (fst (orchestrate_restorations sha256 st)) = hash_db st.
Proof.
  intros Hc. rewrite orchestrate_unfold, prioritize_services_result.
  destruct (priority_list_of _ _) as [e|pl]; simpl; [done|].
  unfold mbind, M_bind.
  match goal with
  | |- context [restore_loop sha256 ?l ?r ?s] =>
      pose proof (restore_loop_complete l r s Hc) as Hloop;
      destruct (restore_loop sha256 l r s) as [s2 [e|final]]
  end; simpl in *; done.
Qed.

Theorem monitoring_tick_registers_in_validation_only st :
  NoDup (backups st).*1 →
  all_readable st →
  hash_db st ≠ DbCorrupt →
  hash_db (fst (monitoring_tick sha256 st)) =
    hash_db (fst (full_validation_cycle sha256 st)).
Proof.
  intros Hnd Hall Hdb.
  destruct (full_validation_cycle_spec sha256 st Hnd Hall Hdb)
    as (s1 & Hcycle & _ & Hin & _).
  pose proof (full_validation_cycle_frame sha256 st) as (_ & Hback & _).
  unfold monitoring_tick, detect_incident.
  unfold mbind at 1 2, M_bind at 1 2. rewrite Hcycle in *. simpl in *.
  unfold mret at 1, M_ret at 1. unfold mbind, M_bind.
  pose proof (orchestrate_complete
                (set_stdout (stdout s1 ++ [LogValidationDone]) s1)) as Horch.
  destruct (orchestrate_restorations sha256 _) as [s2 [e|r]]; simpl in *;
    apply Horch; intros f c Hf; simpl in *; rewrite Hback in Hf;
    apply assoc_Some_elem_of in Hf; destruct (Hin f c Hf) as [_ ->];
    by eexists.
Qed.

(** X18. The two restoration modes copy the same bytes: whenever the
    pre-check passes, a partial restoration writes to [partial_restore]
    exactly what a full restoration writes to [full_restore] (the whole
    artifact, or its first bytes under a copy fault), and both return the
    same result. *)
Theorem partial_restore_copies_whole_artifact st service f m :
  snd (verify_backup sha256 f st) = inr (true, m) →
  snd (restore_service sha256 service f true st) =
    snd (restore_service sha256 service f false st) ∧
  target_file (fst (restore_service sha256 service f true st))
    service "partial_restore" =
  target_file (fst (restore_service sha256 service f false st))
    service "full_restore" ∧
  ∃ content,
    assoc f (backups st) = Some (Readable content) ∧
    target_file (fst (restore_service sha256 service f true st))
      service "partial_restore" =
      Some (written_bytes (copy_faults st !! service) content).
Proof.
  intros Hv.
  destruct (verify_backup_valid_readable sha256 st f m Hv) as [content Hf].
  rewrite !(restore_service_valid sha256 st service f _ content m Hf Hv).
  unfold target_file. simpl. rewrite !lookup_insert_eq. simpl.
  rewrite !lookup_insert_eq. split; [done|]. split; [done|].
  by exists content.
Qed.

(** X19. Restoring again changes nothing more: after a restoration that
    succeeded, the same call succeeds again and leaves the production
    directory and the hash database exactly as the first call left them. *)
Theorem restore_service_twice st service f partial m :
  snd (restore_service sha256 service f partial st) = inr (true, m) →
  let st1 := fst (restore_service sha256 service f partial st) in
  snd (restore_service sha256 service f partial st1) =
    inr (true, "Restauración exitosa") ∧
  production (fst (restore_service sha256 service f partial st1)) =
    production st1 ∧
  hash_db (fst (restore_service sha256 service f partial st1)) = hash_db st1.
Proof.
  intros Hok st1.
  assert (Hvalid : ∃ vm, snd (verify_backup sha256 f st) = inr (true, vm)).
  { revert Hok. rewrite restore_service_unfold. cbv zeta.
    rewrite verify_backup_stdout.
    destruct (verify_backup sha256 f st) as [s [e1|[[] vm]]]; simpl;
      [done | by eauto | done]. }
  destruct Hvalid as [vm Hvm].
  destruct (verify_backup_valid_readable sha256 st f vm Hvm)
    as [content Hf].
  assert (Hdb : hash_db st ≠ DbCorrupt).
  { intros Hc. by rewrite (verify_backup_corrupt sha256 st f content) in Hvm. }
  pose proof (restore_service_valid sha256 st service f partial content vm
                Hf Hvm) as Hfirst.
  rewrite Hfirst in Hok. simpl in Hok.
  assert (Hfault : copy_faults st !! service = None).
  { destruct (copy_faults st !! service) as [[k err]|]; [done|done]. }
  rewrite (verify_backup_spec sha256 st f content Hf Hdb) in Hfirst, Hvm.
  simpl in Hfirst, Hvm.
  assert (Hentry : known_hashes_of (ledger_after (hash_db st) f
                     (sha256 content)) !! f = Some (sha256 content)).
  { rewrite ledger_after_lookup, decide_True by done.
    unfold expected_outcome in Hvm.
    destruct (known_hashes_of (hash_db st) !! f) as [d|]; simpl; [|done].
    destruct (String.eqb_spec d (sha256 content)) as [Heq|Hne].
    - by rewrite Heq.
    - discriminate Hvm. }
  assert (Hst1 : st1 = (restore_service sha256 service f partial st).1)
    by done.
  rewrite Hfirst in Hst1. simpl in Hst1.
  assert (Hf1 : assoc f (backups st1) = Some (Readable content))
    by by rewrite Hst1.
  assert (Hdb1 : hash_db st1 ≠ DbCorrupt).
  { rewrite Hst1. simpl. by apply ledger_after_not_corrupt. }
  assert (Hv1 : verify_backup sha256 f st1 =
                  (st1, inr (true, "Integridad verificada"))).
  { rewrite (verify_backup_spec sha256 st1 f content Hf1 Hdb1).
    assert (Hk : known_hashes_of (hash_db st1) !! f = Some (sha256 content))
      by by rewrite Hst1.
    unfold ledger_after, expected_outcome. rewrite Hk, String.eqb_refl.
    by rewrite set_hash_db_id. }
  rewrite (restore_service_valid sha256 st1 service f partial content
             "Integridad verificada" Hf1); [|by rewrite Hv1].
  rewrite Hv1. simpl.
  assert (Hfault1 : copy_faults st1 !! service = None) by by rewrite Hst1.
  rewrite Hfault1. simpl. split; [done|]. split; [|done].
  rewrite Hst1. simpl. rewrite Hfault. simpl.
  rewrite lookup_insert_eq. simpl.
  by rewrite !insert_insert_eq.
Qed.

End Composition.

(** * The further properties on concrete states *)

Ltac solve_all_readable :=
  let name := fresh "name" in
  let node := fresh "node" in
  let Hin := fresh "Hin" in
  let Heq := fresh "Heq" in
  intros name node Hin;
  repeat (apply elem_of_cons in Hin as [Heq|Hin];
          [injection Heq as -> ->; by eexists|]);
  by apply elem_of_nil in Hin.

Lemma verify_keeps_recorded_digests_witness :
  known_hashes_of
    (hash_db (fst (verify_backup sample_digest api_backup tampered_state)))
    !! db_backup = Some (sample_digest (bytes_of "db-data-before")).
Proof.
  apply (verify_keeps_recorded_digests sample_digest tampered_state
           api_backup db_backup).
  reflexivity.
Defined.

(** The fresh installation with a hash database that cannot be decoded. *)
Definition corrupt_state : State := set_hash_db DbCorrupt fresh_state.

Lemma verify_corrupt_ledger_witness :
  fst (verify_backup sample_digest db_backup corrupt_state) = corrupt_state ∧
  snd (verify_backup sample_digest db_backup corrupt_state) =
    inl JSONDecodeError.
Proof.
  apply (verify_corrupt_ledger sample_digest corrupt_state db_backup).
  reflexivity.
Defined.

Lemma monitoring_tick_stops_on_failed_validation_witness :
  monitoring_tick sample_digest directory_state =
    (fst (full_validation_cycle sample_digest directory_state),
     inl (OSError "Is a directory")) ∧
  production (fst (monitoring_tick sample_digest directory_state)) =
    production directory_state ∧
  ∀ line, line ∈ stdout (fst (monitoring_tick sample_digest directory_state)) →
          line ∈ stdout directory_state ∨ line = LogValidationStart ∨
          ∃ v f msg, line = LogValidationItem v f msg.
Proof.
  apply (monitoring_tick_stops_on_failed_validation sample_digest
           directory_state (OSError "Is a directory")).
  vm_compute. reflexivity.
Defined.

Lemma validation_cycle_snapshot_witness :
  snd (full_validation_cycle sample_digest fresh_state) =
    inr (integrity_status
           (fst (full_validation_cycle sample_digest fresh_state))) ∧
  (∀ name c, (name, Readable c) ∈ backups fresh_state →
     integrity_status (fst (full_validation_cycle sample_digest fresh_state))
       !! name =
     Some (mkIntegrityEntry
             (expected_outcome
                (known_hashes_of (hash_db fresh_state) !! name)
                (sample_digest c)).1
             (expected_outcome
                (known_hashes_of (hash_db fresh_state) !! name)
                (sample_digest c)).2
             (clock_iso fresh_state))) ∧
  (∀ name, name ∉ (backups fresh_state).*1 →
     integrity_status (fst (full_validation_cycle sample_digest fresh_state))
       !! name = integrity_status fresh_state !! name).
Proof.
  apply (validation_cycle_snapshot sample_digest fresh_state);
    [compute_done | solve_all_readable | discriminate].
Defined.

Lemma validation_cycle_registers_directory_witness :
  (∀ name c, (name, Readable c) ∈ backups fresh_state →
     known_hashes_of
       (hash_db (fst (full_validation_cycle sample_digest fresh_state)))
       !! name =
     Some (default (sample_digest c)
             (known_hashes_of (hash_db fresh_state) !! name))) ∧
  (∀ name, name ∉ (backups fresh_state).*1 →
     known_hashes_of
       (hash_db (fst (full_validation_cycle sample_digest fresh_state)))
       !! name = known_hashes_of (hash_db fresh_state) !! name).
Proof.
  apply (validation_cycle_registers_directory sample_digest fresh_state);
    [compute_done | solve_all_readable | discriminate].
Defined.

Lemma validation_cycle_twice_witness :
  hash_db
    (fst (full_validation_cycle sample_digest
            (fst (full_validation_cycle sample_digest tampered_state)))) =
  hash_db (fst (full_validation_cycle sample_digest tampered_state)) ∧
  ∀ name, name ∈ (backups tampered_state).*1 →
    ∃ entry1 entry2,
      integrity_status
        (fst (full_validation_cycle sample_digest tampered_state)) !! name =
        Some entry1 ∧
      integrity_status
        (fst (full_validation_cycle sample_digest
                (fst (full_validation_cycle sample_digest tampered_state))))
        !! name = Some entry2 ∧
      valid entry2 = valid entry1.
Proof.
  apply (validation_cycle_twice sample_digest tampered_state);
    [compute_done | solve_all_readable | discriminate].
Defined.

Lemma successful_restore_matches_ledger_witness :
  ∃ content,
    assoc db_backup (backups fresh_state) = Some (Readable content) ∧
    known_hashes_of
      (hash_db (fst (restore_service sample_digest "servicio_db" db_backup
                       false fresh_state))) !! db_backup =
      Some (sample_digest content) ∧
    target_file
      (fst (restore_service sample_digest "servicio_db" db_backup false
              fresh_state)) "servicio_db" "full_restore" = Some content ∧
    copy_faults fresh_state !! "servicio_db" = None ∧
    "Restauración exitosa" = "Restauración exitosa".
Proof.
  apply (successful_restore_matches_ledger sample_digest fresh_state
           "servicio_db" db_backup false "Restauración exitosa").
  vm_compute. reflexivity.
Defined.

(** A registry one of whose services has the threshold zero. *)
Definition zero_threshold_state : State :=
  {| critical_services :=
       load_critical_services
         (Some [ ("servicio_db", mkServiceData (PyInt 1) (PyInt 100));
                 ("servicio_cola", mkServiceData (PyInt 2) (PyInt 0)) ]);
     backups := [ (db_backup, Readable (bytes_of "db-data")) ];
     hash_db := DbAbsent;
     production := ∅;
     copy_faults := ∅;
     clock_ymd := "20250101";
     clock_iso := "2025-01-01T00:00:00";
     integrity_status := ∅;
     current_demands := ∅;
     stdout := [] |}.

Lemma zero_threshold_aborts_orchestration_witness :
  ∃ e,
    arithmetic_error e ∧
    priority_list_of demand_sample (critical_services zero_threshold_state) =
      inl e ∧
    orchestrate_restorations sample_digest zero_threshold_state =
      (set_current_demands demand_sample
         (set_stdout (stdout zero_threshold_state ++ [LogOrchestrationStart])
            zero_threshold_state),
       inl e).
Proof.
  apply (zero_threshold_aborts_orchestration sample_digest
           zero_threshold_state).
  apply Exists_cons_tl, Exists_cons_hd. reflexivity.
Defined.

Lemma prioritize_services_permutes_registry_witness :
  prioritize_services fresh_state =
    (set_current_demands demand_sample fresh_state,
     inr ["servicio_db"; "servicio_api"; "servicio_web"]) ∧
  ["servicio_db"; "servicio_api"; "servicio_web"] ≡ₚ
    (critical_services fresh_state).*1.
Proof.
  apply (prioritize_services_permutes_registry fresh_state
           ["servicio_db"; "servicio_api"; "servicio_web"]).
  reflexivity.
Defined.

(** The priority values of the built-in registry under the simulated
    demand: the [float]s nearest to 2/3, 32/13 and 5. *)
Definition default_priority_list : list (spec_float * string) :=
  [ (S754_finite false 6004799503160661 (-53), "servicio_db");
    (S754_finite false 5542891849071380 (-51), "servicio_api");
    (S754_finite false 5629499534213120 (-50), "servicio_web") ].

Lemma prioritize_services_order_witness :
  ∃ sorted,
    snd (prioritize_services fresh_state) = inr sorted.*2 ∧
    sorted ≡ₚ default_priority_list ∧
    Sorted key_le sorted ∧
    ∀ k, with_key k sorted = with_key k default_priority_list.
Proof.
  apply (prioritize_services_order fresh_state default_priority_list).
  reflexivity.
Defined.

(** The day after the backups were taken: no backup of the day. *)
Definition next_day_state : State :=
  {| critical_services := load_critical_services None;
     backups := backups fresh_state;
     hash_db := DbAbsent;
     production := ∅;
     copy_faults := ∅;
     clock_ymd := "20250102";
     clock_iso := "2025-01-02T00:00:00";
     integrity_status := ∅;
     current_demands := ∅;
     stdout := [] |}.

Lemma orchestrate_without_backups_witness :
  ∃ results,
    snd (orchestrate_restorations sample_digest next_day_state) =
      inr results ∧
    (∀ s, s ∈ (critical_services next_day_state).*1 →
          results !! s = Some invalid_backup) ∧
    (∀ s, s ∉ (critical_services next_day_state).*1 → results !! s = None) ∧
    production (fst (orchestrate_restorations sample_digest next_day_state)) =
      production next_day_state ∧
    hash_db (fst (orchestrate_restorations sample_digest next_day_state)) =
      hash_db next_day_state.
Proof.
  apply (orchestrate_without_backups sample_digest next_day_state).
  - split; [by eexists|].
    intros service data Hdata. simpl in Hdata.
    repeat (destruct (String.eqb service _);
            [injection Hdata as <-; by eexists|]).
    done.
  - intros s Hs.
    repeat (apply elem_of_cons in Hs as [->|Hs]; [reflexivity|]).
    by apply elem_of_nil in Hs.
Defined.

Lemma orchestrate_visits_a_prefix_witness :
  ∃ visited deferred,
    snd (prioritize_services fresh_state) = inr (visited ++ deferred)%list ∧
    (∀ s, is_Some (scenario_results !! s) ↔ s ∈ visited) ∧
    (deferred ≠ [] →
     stopped_on (set_current_demands demand_sample fresh_state)
       scenario_results visited).
Proof.
  apply (orchestrate_visits_a_prefix sample_digest fresh_state
           scenario_results).
  vm_compute. reflexivity.
Defined.

Lemma monitoring_tick_registers_in_validation_only_witness :
  hash_db (fst (monitoring_tick sample_digest fresh_state)) =
    hash_db (fst (full_validation_cycle sample_digest fresh_state)).
Proof.
  apply (monitoring_tick_registers_in_validation_only sample_digest
           fresh_state);
    [compute_done | solve_all_readable | discriminate].
Defined.

Lemma partial_restore_copies_whole_artifact_witness :
  snd (restore_service sample_digest "servicio_db" db_backup true
         full_disk_state) =
    snd (restore_service sample_digest "servicio_db" db_backup false
           full_disk_state) ∧
  target_file
    (fst (restore_service sample_digest "servicio_db" db_backup true
            full_disk_state)) "servicio_db" "partial_restore" =
  target_file
    (fst (restore_service sample_digest "servicio_db" db_backup false
            full_disk_state)) "servicio_db" "full_restore" ∧
  ∃ content,
    assoc db_backup (backups full_disk_state) = Some (Readable content) ∧
    target_file
      (fst (restore_service sample_digest "servicio_db" db_backup true
              full_disk_state)) "servicio_db" "partial_restore" =
      Some (written_bytes (copy_faults full_disk_state !! "servicio_db")
              content).
Proof.
  apply (partial_restore_copies_whole_artifact sample_digest full_disk_state
           "servicio_db" db_backup "Nuevo backup registrado").
  reflexivity.
Defined.

Lemma restore_service_twice_witness :
  snd (restore_service sample_digest "servicio_db" db_backup false
         (fst (restore_service sample_digest "servicio_db" db_backup false
                 fresh_state))) = inr (true, "Restauración exitosa") ∧
  production
    (fst (restore_service sample_digest "servicio_db" db_backup false
            (fst (restore_service sample_digest "servicio_db" db_backup
                    false fresh_state)))) =
  production
    (fst (restore_service sample_digest "servicio_db" db_backup false
            fresh_state)) ∧
  hash_db
    (fst (restore_service sample_digest "servicio_db" db_backup false
            (fst (restore_service sample_digest "servicio_db" db_backup
                    false fresh_state)))) =
  hash_db
    (fst (restore_service sample_digest "servicio_db" db_backup false
            fresh_state)).
Proof.
  apply (restore_service_twice sample_digest fresh_state "servicio_db"
           db_backup false "Restauración exitosa").
  vm_compute. reflexivity.
Defined.

Section EndToEnd.

Variable sha256 : list byte → string.

Lemma for_each_validate_keeps_entries names st g d :
  known_hashes_of (hash_db st) !! g = Some d →
  known_hashes_of
    (hash_db (fst (for_each names (validate_one sha256) st))) !! g = Some d.
Proof.
  revert st. induction names as [|f names IH]; intros st Hg; [done|].
  simpl. unfold mbind, M_bind.
  assert (Hone : known_hashes_of
                   (hash_db (fst (validate_one sha256 f st))) !! g = Some d).
  { unfold validate_one. unfold mbind at 1, M_bind at 1.
    pose proof (verify_backup_keeps_entries sha256 st f g d Hg) as Hkeep.
    by destruct (verify_backup sha256 f st) as [st1 [e|[v msg]]]. }
  destruct (validate_one sha256 f st) as [st1 [e|[]]]; simpl in *; [done|].
  by apply IH.
Qed.

(** X20. The validation cycle only reads the artifacts: however it ends
    (snapshot or exception), the backup directory, the production
    directory, the registry and the demand sample are what they were.  In
    the hash database the cycle only registers files: every digest
    recorded before the cycle is still recorded, unchanged, after it (the
    rewriting of [hash_db.json] being taken to succeed). *)
Theorem validation_cycle_is_read_only st :
  validation_frame st (fst (full_validation_cycle sha256 st)) ∧
  ∀ g d, known_hashes_of (hash_db st) !! g = Some d →
         known_hashes_of
           (hash_db (fst (full_validation_cycle sha256 st))) !! g = Some d.
Proof.
  split; [apply full_validation_cycle_frame|].
  intros g d Hg. rewrite full_validation_cycle_unfold.
  pose proof (for_each_validate_keeps_entries (backups st).*1
                (set_stdout (stdout st ++ [LogValidationStart]) st) g d Hg)
    as Hloop.
  by destruct (for_each _ _ _) as [st1 [e|[]]].
Qed.

(** A restoration writes to the target directory of its service only. *)
Lemma restore_copy_other st service f partial service' :
  service' ≠ service →
  production (fst (restore_copy service f partial st)) !! service' =
    production st !! service'.
Proof.
  intros Hne.
  unfold restore_copy, try_except, target_exists, makedirs, shutil_copy.
  unfold_monad. cbn.
  repeat (case_match; simplify_eq/=); rewrite ?lookup_insert_ne by done;
    done.
Qed.

Lemma restore_service_other st service f partial service' name :
  service' ≠ service →
  target_file (fst (restore_service sha256 service f partial st))
    service' name = target_file st service' name.
Proof.
  intros Hne. unfold target_file.
  rewrite restore_service_unfold. cbv zeta. rewrite verify_backup_stdout.
  pose proof (verify_backup_frame sha256 st f) as Hframe.
  destruct (verify_backup sha256 f st) as [st1 [e|[[] m]]]; simpl in *;
    rewrite Hframe; try done.
  by rewrite restore_copy_other.
Qed.

Lemma restore_loop_other l results st service' name :
  service' ∉ l →
  target_file (fst (restore_loop sha256 l results st)) service' name =
    target_file st service' name.
Proof.
  revert results st. induction l as [|service rest IH]; intros results st Hl;
    [done|].
  apply not_elem_of_cons in Hl as [Hne Hl].
  simpl. unfold mbind, M_bind.
  assert (Hone : target_file
                   (fst (restore_iteration sha256 service results st))
                   service' name = target_file st service' name).
  { destruct (restore_iteration_cases sha256 st service results)
      as [[e ->] | (data & partial & _ & _ & ->)]; [done|].
    pose proof (restore_service_other st service
                  (backup_file_name service (clock_ymd st)) partial
                  service' name Hne) as Hother.
    by destruct (restore_service _ _ _ _ _) as [st' [e|[ok msg]]]. }
  destruct (restore_iteration sha256 service results st)
    as [st1 [e|[results' []]]]; simpl in *; try done.
  by rewrite IH.
Qed.

(** The target of [service] holds the backup of the day, in the file of
    the mode that the code computes from the demand. *)
Definition restored (st st' : State) (service : string) : Prop :=
  ∃ data partial content,
    assoc service (critical_services st) = Some data ∧
    restore_mode (sampled_demand st service) (demand_threshold data) =
      inr partial ∧
    assoc (backup_file_name service (clock_ymd st)) (backups st) =
      Some (Readable content) ∧
    target_file st' service (restore_name partial) = Some content.

Lemma restore_service_success st service f partial m :
  snd (restore_service sha256 service f partial st) = inr (true, m) →
  ∃ content,
    assoc f (backups st) = Some (Readable content) ∧
    target_file (fst (restore_service sha256 service f partial st))
      service (restore_name partial) = Some content.
Proof.
  intros Hok.
  assert (Hvalid : ∃ vm, snd (verify_backup sha256 f st) = inr (true, vm)).
  { revert Hok. rewrite restore_service_unfold. cbv zeta.
    rewrite verify_backup_stdout.
    destruct (verify_backup sha256 f st) as [st1 [e1|[[] vm]]]; simpl;
      [done | by eauto | done]. }
  destruct Hvalid as [vm Hvm].
  destruct (verify_backup_valid_readable sha256 st f vm Hvm)
    as [content Hf].
  rewrite (restore_service_valid sha256 st service f partial content vm Hf Hvm)
    in *.
  simpl in *. exists content. split; [done|].
  unfold target_file. simpl. rewrite lookup_insert_eq. simpl.
  rewrite lookup_insert_eq.
  destruct (copy_faults st !! service) as [[k err]|]; [|done].
  discriminate Hok.
Qed.

Lemma restore_loop_restored l results st final :
  NoDup l →
  snd (restore_loop sha256 l results st) = inr final →
  ∀ s m, final !! s = Some (mkRestoreResult true m) →
    results !! s = Some (mkRestoreResult true m) ∨
    restored st (fst (restore_loop sha256 l results st)) s.
Proof.
  revert results st. induction l as [|service rest IH];
    intros results st Hnd Hfinal s m Hs.
  - simpl in Hfinal. injection Hfinal as <-. by left.
  - apply NoDup_cons in Hnd as [Hfresh Hnd].
    simpl in Hfinal |- *. unfold mbind, M_bind in Hfinal |- *.
    pose proof (restore_iteration_run_frame sha256 st service results)
      as [(Hcs & Hback & _ & Hclock & _) Hdem].
    destruct (restore_iteration_cases sha256 st service results)
      as [[e Hit] | (data & partial & Hdata & Hmode & Hit)];
      rewrite Hit in Hfinal, Hcs, Hback, Hclock, Hdem |- *; [done|].
    pose proof (restore_service_success st service
                  (backup_file_name service (clock_ymd st)) partial)
      as Hsuccess.
    destruct (restore_service _ _ _ _ _) as [st1 [e|[ok msg]]];
      simpl in *; [done|].
    assert (Hhere : ∀ st', target_file st' service (restore_name partial) =
                      target_file st1 service (restore_name partial) →
                    ok = true → restored st st' service).
    { intros st' Hsame ->.
      destruct (Hsuccess msg eq_refl) as (content & Hf & Ht).
      exists data, partial, content. by rewrite Hsame. }
    destruct (ok && Py.lt (sampled_demand st service)
                      (demand_threshold data)) eqn:Hstop; simpl in *.
    + injection Hfinal as <-.
      destruct (decide (s = service)) as [->|Hne].
      * rewrite lookup_insert_eq in Hs. injection Hs as -> _.
        right. by apply Hhere.
      * rewrite lookup_insert_ne in Hs by done. by left.
    + destruct (IH _ _ Hnd Hfinal s m Hs) as [Hbefore|Hrestored].
      * destruct (decide (s = service)) as [->|Hne].
        -- rewrite lookup_insert_eq in Hbefore. injection Hbefore as -> _.
           right. apply Hhere; [|done]. by apply restore_loop_other.
        -- rewrite lookup_insert_ne in Hbefore by done. by left.
      * right.
        destruct Hrestored as (d & p & content & Hd & Hp & Hf & Ht).
        exists d, p, content. unfold sampled_demand in *.
        by rewrite <- Hcs, <- Hback, <- Hclock, <- Hdem.
Qed.

(** X21. What a run reports as restored is in production: for a registry
    without repeated names, every service to which the results of
    [orchestrate_restorations] give a success has, at the end of the run,
    the bytes of its backup of the day in the file of the restoration mode
    that the run computed for it ([partial_restore] or [full_restore]) of
    its production directory; the restorations of the services that follow
    it have not touched it. *)
Theorem orchestrate_success_is_in_production st results :
  NoDup (critical_services st).*1 →
  snd (orchestrate_restorations sha256 st) = inr results →
  ∀ s m, results !! s = Some (mkRestoreResult true m) →
    restored (set_current_demands demand_sample st)
      (fst (orchestrate_restorations sha256 st)) s.
Proof.
  intros Hnd. rewrite orchestrate_unfold, prioritize_services_result.
  destruct (priority_list_of _ _) as [e|pl] eqn:Hpl; simpl; [done|].
  assert (Hnames : NoDup (sort_by_key pl).*2).
  { by rewrite sort_by_key_perm, (priority_list_names _ _ _ Hpl). }
  unfold mbind, M_bind. intros Hres s m Hs.
  match type of Hres with
  | context [restore_loop sha256 ?l ?r ?s0] =>
      pose proof (restore_loop_restored l r s0) as Hloop;
      destruct (restore_loop sha256 l r s0) as [s2 [e|final]]
  end; simpl in *; [done|].
  unfold_monad. simpl in *. injection Hres as <-.
  destruct (Hloop final Hnames eq_refl s m Hs) as [Hempty|Hrestored].
  - by rewrite lookup_empty in Hempty.
  - destruct Hrestored as (d & p & content & Hd & Hp & Hf & Ht).
    by exists d, p, content.
Qed.

End EndToEnd.

Lemma orchestrate_success_is_in_production_witness :
  restored (set_current_demands demand_sample fresh_state)
    (fst (orchestrate_restorations sample_digest fresh_state))
    "servicio_api".
Proof.
  apply (orchestrate_success_is_in_production sample_digest fresh_state
           scenario_results) with (m := "Restauración exitosa").
  - compute_done.
  - vm_compute. reflexivity.
  - reflexivity.
Defined.

